(** * hello-prisma: the example scripts and their run-time behaviour

    The repository consists of four runnable TypeScript scripts that drive a
    generated Prisma client: [queries.ts] (seeding), [example-queries.ts]
    (CRUD walk-through), the verification script ([verify]) and the advanced
    examples ([runAllExamples]).  Each script is embedded as a computation in
    a small completion monad over a world that holds the database behind the
    client, the console, the clock and the chronological list of client
    events.  The ORM itself is an interface ([Orm]), and so is what the
    JavaScript engine decides about strings, conversions and its own errors
    ([Engine]); every general statement below holds for all of their
    implementations. *)

From Stdlib Require Import ZArith Ascii String List Lia.
From stdpp Require Import base option list strings pretty gmap.

Set Warnings "-register-all".

(** ** JavaScript data *)

(** Plain data as it flows between the scripts and the client: arguments of
    queries, rows, counts and errors. *)
Inductive value : Type :=
| VUndefined
| VNull
| VBool (b : bool)
| VNum (n : Z)
| VStr (s : string)
| VDate (ms : Z)
| VArr (items : list value)
| VObj (fields : list (string * value)).

Coercion VStr : string >-> value.
Coercion VBool : bool >-> value.
Coercion VNum : Z >-> value.

Definition nl : string := String (ascii_of_nat 10) EmptyString.
Definition dquote : string := String (ascii_of_nat 34) EmptyString.

Fixpoint field (k : string) (fs : list (string * value)) : value :=
  match fs with
  | [] => VUndefined
  | (k', v) :: rest => if String.eqb k k' then v else field k rest
  end.

(** ToBoolean. *)
Definition truthy (v : value) : bool :=
  match v with
  | VUndefined | VNull => false
  | VBool b => b
  | VNum n => negb (Z.eqb n 0)
  | VStr s => negb (String.eqb s "")
  | VDate _ | VArr _ | VObj _ => true
  end.

(** ** The JavaScript engine *)

(** What the engine decides and the sources do not show: the UTF-16 view of
    a string (its [length], the strings [for ... of] takes out of it, the
    unit at an index), the number a string, an array or an object converts
    to ([None] is NaN), and the [TypeError] objects it throws.  Every general
    statement below holds for all engines. *)
Class Engine := {
  string_length : string -> Z;
  string_items : string -> list string;
  string_at : string -> nat -> value;
  object_to_number : value -> option Z;
  cannot_read : value -> string -> value;
  not_iterable : value -> value;
  not_a_function : value -> string -> value
}.

(** ToNumber; [None] is NaN. *)
Definition to_number `{!Engine} (v : value) : option Z :=
  match v with
  | VUndefined => None
  | VNull => Some 0%Z
  | VBool b => Some (if b then 1 else 0)%Z
  | VNum n => Some n
  | VDate ms => Some ms
  | VStr _ | VArr _ | VObj _ => object_to_number v
  end.

(** [a > n] for a numeric literal [n]. *)
Definition js_gt `{!Engine} (a : value) (n : Z) : bool :=
  match to_number a with
  | Some x => Z.ltb n x
  | None => false
  end.

(** The property key of an array index. *)
Definition index_key (n : nat) : string := pretty n.

(** ** Console *)

(** One argument of [console.log]/[console.error].  A template literal keeps
    its substitutions unformatted. *)
Inductive piece := Lit (s : string) | Sub (v : value).
Inductive log_arg := Val (v : value) | Tpl (ps : list piece).

Coercion Val : value >-> log_arg.

(** ** The client interface *)

Record PrismaClientOptions := { accelerateUrl : option string }.

Inductive model := User | Post.

Inductive operation :=
| Create | FindMany | FindUnique | Update | Delete | Count
| Upsert | UpdateMany | GroupBy.

(** A call on the client.  The object a call returns is a thenable for the
    request, which is answered when the thenable is settled;
    [prisma.$transaction] takes a list of such objects. *)
Inductive request : Type :=
| Query (m : model) (op : operation) (args : value)
| Connect
| Disconnect
| Transaction (batch : list request).

Definition operation_name (op : operation) : string :=
  match op with
  | Create => "create" | FindMany => "findMany" | FindUnique => "findUnique"
  | Update => "update" | Delete => "delete" | Count => "count"
  | Upsert => "upsert" | UpdateMany => "updateMany" | GroupBy => "groupBy"
  end.

Definition method_name (r : request) : string :=
  match r with
  | Query _ op _ => operation_name op
  | Connect => "$connect"
  | Disconnect => "$disconnect"
  | Transaction _ => "$transaction"
  end.

Inductive settlement := Fulfilled (v : value) | Rejected (e : value).

(** The ORM runtime and the database behind it are external: a request is
    answered from the current database and may change it. *)
Class Orm (DB : Type) := orm_exec : request -> DB -> settlement * DB.
Arguments orm_exec : simpl never.

(** What the process does with the client, in the order it happens. *)
Inductive event :=
| Constructed (o : PrismaClientOptions)
| Issued (r : request)
| Settled (r : request) (s : settlement).

Record world (DB : Type) := World {
  database : DB;
  clock : Z;
  stdout : list (list log_arg);
  stderr : list (list log_arg);
  events : list event
}.
Arguments World {DB}.
Arguments database {DB}.
Arguments clock {DB}.
Arguments stdout {DB}.
Arguments stderr {DB}.
Arguments events {DB}.

(** ** Completions *)

(** How a piece of code finishes: normally, by [return], by a thrown value,
    or because [process.exit] ended the process. *)
Inductive completion (A : Type) :=
| Normal (a : A)
| Return (v : value)
| Throw (e : value)
| Exit (code : Z).
Arguments Normal {A}.
Arguments Return {A}.
Arguments Throw {A}.
Arguments Exit {A}.

Definition M (DB A : Type) : Type := world DB -> completion A * world DB.

#[export] Instance M_ret {DB} : MRet (M DB) := fun A a w => (Normal a, w).

#[export] Instance M_bind {DB} : MBind (M DB) := fun A B k c w =>
  match c w with
  | (Normal a, w') => k a w'
  | (Return v, w') => (Return v, w')
  | (Throw e, w') => (Throw e, w')
  | (Exit n, w') => (Exit n, w')
  end.

(** ** Primitive effects *)

Section Runtime.
Context {DB : Type} `{!Orm DB} {engine : Engine}.

Definition record_event (ev : event) (w : world DB) : world DB :=
  World (database w) (clock w) (stdout w) (stderr w) (events w ++ [ev]).

Definition console_log (args : list log_arg) : M DB () := fun w =>
  (Normal (), World (database w) (clock w) (stdout w ++ [args]) (stderr w) (events w)).

Definition console_error (args : list log_arg) : M DB () := fun w =>
  (Normal (), World (database w) (clock w) (stdout w) (stderr w ++ [args]) (events w)).

Definition throw {A} (e : value) : M DB A := fun w => (Throw e, w).
Definition return_ {A} (v : value) : M DB A := fun w => (Return v, w).
Definition process_exit {A} (code : Z) : M DB A := fun w => (Exit code, w).
Definition date_now : M DB Z := fun w => (Normal (clock w), w).

(** [new PrismaClient(options)]. *)
Definition new_PrismaClient (o : PrismaClientOptions) : M DB () := fun w =>
  (Normal (), record_event (Constructed o) w).

(** Calling a client method hands back the thenable of the request. *)
Definition issue (r : request) : M DB request := fun w =>
  (Normal r, record_event (Issued r) w).

Definition prisma (m : model) (op : operation) (args : value) : M DB request :=
  issue (Query m op args).
Definition prisma_connect : M DB request := issue Connect.
Definition prisma_disconnect : M DB request := issue Disconnect.
Definition prisma_transaction (batch : list request) : M DB request :=
  issue (Transaction batch).

(** Settling a thenable: the request is answered by the ORM; a rejection
    is thrown at the [await]. *)
Definition settle (p : request) : M DB value := fun w =>
  let '(s, db) := orm_exec p (database w) in
  let w' := record_event (Settled p s)
              (World db (clock w) (stdout w) (stderr w) (events w)) in
  match s with
  | Fulfilled v => (Normal v, w')
  | Rejected e => (Throw e, w')
  end.

(** [await call(...)]. *)
Definition await (call : M DB request) : M DB value := p ← call; settle p.

(** [try { body } catch (e) { handler }]. *)
Definition try_catch {A} (body : M DB A) (handler : value -> M DB A) : M DB A :=
  fun w =>
    match body w with
    | (Throw e, w') => handler e w'
    | other => other
    end.

(** [v.k], for the data properties the scripts read. *)
Definition get (v : value) (k : string) : M DB value :=
  match v with
  | VUndefined | VNull => throw (cannot_read v k)
  | VObj fs => mret (field k fs)
  | VArr xs => mret (if String.eqb k "length" then VNum (Z.of_nat (length xs)) else VUndefined)
  | VStr s => mret (if String.eqb k "length" then VNum (string_length s) else VUndefined)
  | VBool _ | VNum _ | VDate _ => mret VUndefined
  end.

(** [v[i]] *)
Definition index (v : value) (i : nat) : M DB value :=
  match v with
  | VUndefined | VNull => throw (cannot_read v (index_key i))
  | VObj fs => mret (field (index_key i) fs)
  | VArr xs => mret (nth i xs VUndefined)
  | VStr s => mret (string_at s i)
  | VBool _ | VNum _ | VDate _ => mret VUndefined
  end.

Fixpoint each (xs : list value) (body : value -> M DB ()) : M DB () :=
  match xs with
  | [] => mret ()
  | x :: rest => body x;; each rest body
  end.

(** [for (const x of v) body] *)
Definition for_of (v : value) (body : value -> M DB ()) : M DB () :=
  match v with
  | VArr xs => each xs body
  | VStr s => each (map VStr (string_items s)) body
  | _ => throw (not_iterable v)
  end.

(** [v.forEach(callback)]: only arrays carry the method. *)
Definition forEach (v : value) (callback : value -> M DB ()) : M DB () :=
  match v with
  | VArr xs => each xs callback
  | VUndefined | VNull => throw (cannot_read v "forEach")
  | _ => throw (not_a_function v "forEach")
  end.

(** ** Promise chains at module level *)

(** Calling an async function yields a promise; the chain below follows
    it to its settlement.  Only [process.exit] escapes. *)
Definition call_async (body : M DB ()) : M DB settlement := fun w =>
  match body w with
  | (Normal _, w') => (Normal (Fulfilled VUndefined), w')
  | (Return v, w') => (Normal (Fulfilled v), w')
  | (Throw e, w') => (Normal (Rejected e), w')
  | (Exit n, w') => (Exit n, w')
  end.

(** [p.catch(onRejected)] *)
Definition promise_catch (p : settlement) (onRejected : value -> M DB ()) : M DB settlement :=
  match p with
  | Fulfilled v => mret (Fulfilled v)
  | Rejected e => call_async (onRejected e)
  end.

(** [p.finally(onFinally)]: the callback runs whatever the outcome, and
    the outcome passes through unless the callback itself rejects. *)
Definition promise_finally (p : settlement) (onFinally : M DB ()) : M DB settlement :=
  q ← call_async onFinally;
  match q with
  | Fulfilled _ => mret p
  | Rejected e => mret (Rejected e)
  end.
End Runtime.

(** ** Modules *)

(** The top-level items of a script file, as far as its interface goes. *)
Inductive top_level :=
| ImportSideEffect (from : string)
| ImportNamed (names : list string) (from : string)
| ConstDecl (exported : bool) (name : string)
| AsyncFunctionDecl (exported : bool) (name : string)
| ExpressionStatement.


(** [import 'dotenv/config']: variables of the [.env] file are added to the
    process environment; variables that are already set are kept. *)
Definition dotenv_config (env dotfile : gmap string string) : gmap string string :=
  env ∪ dotfile.

(** A runnable script: [const prisma = new PrismaClient(options)], an async
    function, and the module-level chain
    [entry().catch(onRejected).finally(onFinally)].  [name] is the file name
    where it is known and the name of the main function otherwise. *)
Record script (DB : Type) := Script {
  name : string;
  outline : list top_level;
  client_options : gmap string string -> PrismaClientOptions;
  entry : M DB ();
  onRejected : value -> M DB ();
  onFinally : M DB ()
}.
Arguments Script {DB}.
Arguments name {DB}.
Arguments outline {DB}.
Arguments client_options {DB}.
Arguments entry {DB}.
Arguments onRejected {DB}.
Arguments onFinally {DB}.

Section Process.
Context {DB : Type} `{!Orm DB} {engine : Engine}.

Definition run_module (s : script DB) (process_env : gmap string string) : M DB settlement :=
  new_PrismaClient (client_options s process_env);;
  p ← call_async (entry s);
  p ← promise_catch p (onRejected s);
  promise_finally p (onFinally s).

Definition initial (db : DB) (now : Z) : world DB := World db now [] [] [].

(** Running a script file under node.  The exit status is the argument
    of [process.exit] when it was called, 1 when the module-level promise
    is left rejected (the runtime reports it on stderr) and 0 otherwise. *)
Definition node (s : script DB) (env dotfile : gmap string string)
    (db : DB) (now : Z) : Z * world DB :=
  match run_module s (dotenv_config env dotfile) (initial db now) with
  | (Exit code, w) => (code, w)
  | (Normal (Rejected e), w) | (Throw e, w) =>
      (1%Z, World (database w) (clock w) (stdout w) (stderr w ++ [[Val e]]) (events w))
  | (Normal (Fulfilled _), w) | (Return _, w) => (0%Z, w)
  end.
End Process.

(** ** queries.ts *)

Section Scripts.
Context {DB : Type} `{!Orm DB} {engine : Engine}.
Local Open Scope string_scope.

Definition queries_main : M DB () :=
  console_log [Val "Seeding database..."];;
  alice ← await (prisma User Create (VObj [
    ("data", VObj [
      ("email", VStr "alice@prisma.io");
      ("name", VStr "Alice");
      ("posts", VObj [
        ("create", VArr [
          VObj [("title", VStr "My first post"); ("content", VStr "Hello World!"); ("published", VBool true)];
          VObj [("title", VStr "Draft post"); ("content", VStr "This is a draft"); ("published", VBool false)]
        ])
      ])
    ])
  ]));
  bob ← await (prisma User Create (VObj [
    ("data", VObj [
      ("email", VStr "bob@prisma.io");
      ("name", VStr "Bob");
      ("posts", VObj [
        ("create", VObj [
          ("title", VStr "Bob's first post");
          ("content", VStr "Nice to meet you!");
          ("published", VBool true)
        ])
      ])
    ])
  ]));
  console_log [Val "Created users:"; Val (VObj [("alice", alice); ("bob", bob)])];;
  allUsers ← await (prisma User FindMany (VObj [
    ("include", VObj [("posts", VBool true)])
  ]));
  console_log [Val "All users:"; Val allUsers];;
  publishedPosts ← await (prisma Post FindMany (VObj [
    ("where", VObj [("published", VBool true)]);
    ("include", VObj [("author", VBool true)])
  ]));
  console_log [Val "Published posts:"; Val publishedPosts].

Definition queries_ts : script DB := {|
  name := "queries.ts";
  outline := [
    ImportSideEffect "dotenv/config";
    ImportNamed ["PrismaClient"] "./generated/prisma/client.js";
    ConstDecl false "prisma";
    AsyncFunctionDecl false "main";
    ExpressionStatement ];
  client_options := fun process_env =>
    {| accelerateUrl := process_env !! "DATABASE_URL" |};
  entry := queries_main;
  onRejected := fun e => console_error [Val e];; process_exit 1;
  onFinally := _ ← await prisma_disconnect; mret ()
|}.

(** ** example-queries.ts *)

Definition example_create : M DB () :=
  console_log [Val "1. CREATE - Adding new user and post..."];;
  newUser ← await (prisma User Create (VObj [
    ("data", VObj [
      ("email", VStr "charlie@prisma.io");
      ("name", VStr "Charlie");
      ("posts", VObj [
        ("create", VObj [
          ("title", VStr "Charlie introduction");
          ("content", VStr "Hi everyone!");
          ("published", VBool true)
        ])
      ])
    ])
  ]));
  console_log [Val "   Created:"; Val newUser].

Definition example_read : M DB () :=
  console_log [Val (nl +:+ "2. READ - Finding users...")];;
  allUsers ← await (prisma User FindMany VUndefined);
  console_log [Val "   All users:"; Val allUsers];;
  specificUser ← await (prisma User FindUnique (VObj [
    ("where", VObj [("email", VStr "alice@prisma.io")]);
    ("include", VObj [("posts", VBool true)])
  ]));
  console_log [Val "   Alice with posts:"; Val specificUser];;
  publishedPosts ← await (prisma Post FindMany (VObj [
    ("where", VObj [("published", VBool true)]);
    ("include", VObj [("author", VBool true)])
  ]));
  console_log [Val "   Published posts:"; Val publishedPosts].

Definition example_update : M DB () :=
  console_log [Val (nl +:+ "3. UPDATE - Updating user...")];;
  updatedUser ← await (prisma User Update (VObj [
    ("where", VObj [("email", VStr "charlie@prisma.io")]);
    ("data", VObj [("name", VStr "Charles")])
  ]));
  console_log [Val "   Updated:"; Val updatedUser].

Definition example_delete : M DB () :=
  console_log [Val (nl +:+ "4. DELETE - Removing user...")];;
  await (prisma User Delete (VObj [
    ("where", VObj [("email", VStr "charlie@prisma.io")])
  ]));;
  console_log [Val "   Deleted user successfully"].

Definition example_aggregation : M DB () :=
  console_log [Val (nl +:+ "5. AGGREGATION - Statistics...")];;
  userCount ← await (prisma User Count VUndefined);
  postCount ← await (prisma Post Count VUndefined);
  publishedCount ← await (prisma Post Count (VObj [
    ("where", VObj [("published", VBool true)])
  ]));
  console_log [Tpl [Lit "   Users: "; Sub userCount]];;
  console_log [Tpl [Lit "   Posts: "; Sub postCount]];;
  console_log [Tpl [Lit "   Published: "; Sub publishedCount]];;
  console_log [Val (nl +:+ "=== ALL EXAMPLES COMPLETE ===")].

Definition example_queries_main : M DB () :=
  console_log [Val ("=== PRISMA QUERY EXAMPLES ===" +:+ nl)];;
  example_create;;
  example_read;;
  example_update;;
  example_delete;;
  example_aggregation.

(** The walk-through up to and including its delete step. *)
Definition example_through_delete : M DB () :=
  console_log [Val ("=== PRISMA QUERY EXAMPLES ===" +:+ nl)];;
  example_create;;
  example_read;;
  example_update;;
  example_delete.

Definition example_queries_ts : script DB := {|
  name := "example-queries.ts";
  outline := [
    ImportSideEffect "dotenv/config";
    ImportNamed ["PrismaClient"] "./generated/prisma/client.js";
    ConstDecl false "prisma";
    AsyncFunctionDecl false "main";
    ExpressionStatement ];
  client_options := fun process_env =>
    {| accelerateUrl := process_env !! "DATABASE_URL" |};
  entry := example_queries_main;
  onRejected := fun e => console_error [Val "Error:"; Val e];; process_exit 1;
  onFinally := _ ← await prisma_disconnect; mret ()
|}.

(** ** The verification script *)

Definition verify_connection : M DB () :=
  console_log [Val "1. Testing database connection..."];;
  try_catch
    (await prisma_connect;;
     console_log [Val ("   ✓ Database connected successfully" +:+ nl)])
    (fun e =>
       console_log [Val "   ✗ Connection failed:"; Val e];;
       return_ VUndefined).

Definition verify_tables : M DB () :=
  console_log [Val "2. Checking tables..."];;
  try_catch
    (userCount ← await (prisma User Count VUndefined);
     postCount ← await (prisma Post Count VUndefined);
     console_log [Tpl [Lit "   ✓ Users: "; Sub userCount]];;
     console_log [Tpl [Lit "   ✓ Posts: "; Sub postCount; Lit nl]])
    (fun e =>
       console_log [Val "   ✗ Failed to query:"; Val e];;
       return_ VUndefined).

Definition verify_show : M DB () :=
  console_log [Val "3. Showing all data..."];;
  users ← await (prisma User FindMany (VObj [
    ("include", VObj [("posts", VBool true)])
  ]));
  for_of users (fun user =>
    name ← get user "name";
    email ← get user "email";
    console_log [Tpl [Lit "   User: "; Sub name; Lit " ("; Sub email; Lit ")"]];;
    posts ← get user "posts";
    for_of posts (fun post =>
      title ← get post "title";
      published ← get post "published";
      console_log [Tpl [Lit "     - Post: "; Lit dquote; Sub title; Lit dquote; Lit " (";
                        Lit (if truthy published then "published" else "draft"); Lit ")"]])).

Definition verify : M DB () :=
  console_log [Val ("=== PRISMA VERIFICATION ===" +:+ nl)];;
  verify_connection;;
  verify_tables;;
  verify_show;;
  console_log [Val (nl +:+ "=== ALL VERIFICATIONS PASSED ✓ ===")];;
  console_log [Val (nl +:+ "Prisma Studio: http://localhost:51212")].

Definition verify_ts : script DB := {|
  name := "verify";
  outline := [
    ImportSideEffect "dotenv/config";
    ImportNamed ["PrismaClient"] "./generated/prisma/client.js";
    ConstDecl false "prisma";
    AsyncFunctionDecl false "verify";
    ExpressionStatement ];
  client_options := fun process_env =>
    match process_env !! "DATABASE_URL" with
    | Some url => if negb (String.eqb url "")
                  then {| accelerateUrl := Some url |}
                  else {| accelerateUrl := Some "" |}
    | None => {| accelerateUrl := Some "" |}
    end;
  entry := verify;
  onRejected := fun e => console_error [Val e];
  onFinally := _ ← await prisma_disconnect; mret ()
|}.

(** ** The advanced examples *)

Definition insensitive (k s : string) : value :=
  VObj [(k, VStr s); ("mode", VStr "insensitive")].

Definition runAllExamples : M DB () :=
  console_log [Val ("=== PRISMA ADVANCED EXAMPLES ===" +:+ nl)];;
  (* 1. advanced where clauses *)
  console_log [Val "1. ADVANCED WHERE CLAUSES"];;
  console_log [Val "--------------------------"];;
  usersStartingWithA ← await (prisma User FindMany (VObj [
    ("where", VObj [("name", insensitive "startsWith" "A")])
  ]));
  console_log [Val "   Users starting with A:"; Val usersStartingWithA];;
  postsWithPrisma ← await (prisma Post FindMany (VObj [
    ("where", VObj [
      ("OR", VArr [
        VObj [("title", insensitive "contains" "post")];
        VObj [("content", insensitive "contains" "post")]
      ])
    ])
  ]));
  n ← get postsWithPrisma "length";
  console_log [Val ("   Posts mentioning " +:+ dquote +:+ "post" +:+ dquote +:+ ":"); Val n];;
  publishedPostsByUser ← await (prisma Post FindMany (VObj [
    ("where", VObj [
      ("AND", VArr [
        VObj [("published", VBool true)];
        VObj [("author", VObj [("email", VStr "alice@prisma.io")])]
      ])
    ])
  ]));
  n ← get publishedPostsByUser "length";
  console_log [Val "   Published posts by Alice:"; Val n];;
  (* 2. pagination *)
  console_log [Val (nl +:+ "2. PAGINATION")];;
  console_log [Val "--------------"];;
  firstPage ← await (prisma Post FindMany (VObj [
    ("skip", VNum 0);
    ("take", VNum 2);
    ("orderBy", VObj [("createdAt", VStr "desc")])
  ]));
  n ← get firstPage "length";
  console_log [Val "   First page (2 items):"; Val n];;
  n ← get firstPage "length";
  cursor ← (if js_gt n 0
            then first ← index firstPage 0;
                 id ← get first "id";
                 mret (VObj [("id", id)])
            else mret VUndefined);
  cursorPage ← await (prisma Post FindMany (VObj [
    ("take", VNum 2);
    ("cursor", cursor);
    ("orderBy", VObj [("createdAt", VStr "desc")])
  ]));
  n ← get cursorPage "length";
  console_log [Val "   Cursor page:"; Val n];;
  (* 3. select specific fields *)
  console_log [Val (nl +:+ "3. SELECT SPECIFIC FIELDS")];;
  console_log [Val "-------------------------"];;
  userNamesOnly ← await (prisma User FindMany (VObj [
    ("select", VObj [
      ("name", VBool true);
      ("email", VBool true);
      ("posts", VObj [("select", VObj [("title", VBool true)])])
    ])
  ]));
  console_log [Val "   User names with post titles:"; Val userNamesOnly];;
  (* 4. relations *)
  console_log [Val (nl +:+ "4. RELATIONS")];;
  console_log [Val "-------------"];;
  usersWithAllPosts ← await (prisma User FindMany (VObj [
    ("include", VObj [
      ("posts", VObj [
        ("where", VObj [("published", VBool true)]);
        ("orderBy", VObj [("createdAt", VStr "desc")])
      ])
    ])
  ]));
  console_log [Val "   Users with published posts:"];;
  forEach usersWithAllPosts (fun user =>
    name ← get user "name";
    posts ← get user "posts";
    n ← get posts "length";
    console_log [Tpl [Lit "     "; Sub name; Lit ": "; Sub n; Lit " published posts"]]);;
  (* 5. aggregation *)
  console_log [Val (nl +:+ "5. AGGREGATION")];;
  console_log [Val "--------------"];;
  totalUsers ← await (prisma User Count VUndefined);
  totalPosts ← await (prisma Post Count VUndefined);
  publishedPostsCount ← await (prisma Post Count (VObj [
    ("where", VObj [("published", VBool true)])
  ]));
  console_log [Tpl [Lit "   Users: "; Sub totalUsers; Lit ", Posts: "; Sub totalPosts;
                    Lit ", Published: "; Sub publishedPostsCount]];;
  usersWithPostCounts ← await (prisma User FindMany (VObj [
    ("include", VObj [("_count", VObj [("select", VObj [("posts", VBool true)])])])
  ]));
  console_log [Val "   Post counts per user:"];;
  forEach usersWithPostCounts (fun user =>
    name ← get user "name";
    c ← get user "_count";
    n ← get c "posts";
    console_log [Tpl [Lit "     "; Sub name; Lit ": "; Sub n; Lit " posts"]]);;
  (* 6. upsert *)
  console_log [Val (nl +:+ "6. UPSERT")];;
  console_log [Val "---------"];;
  upsertedUser ← await (prisma User Upsert (VObj [
    ("where", VObj [("email", VStr "upsert@example.com")]);
    ("update", VObj [("name", VStr "Updated Upsert User")]);
    ("create", VObj [("email", VStr "upsert@example.com"); ("name", VStr "New Upsert User")])
  ]));
  name ← get upsertedUser "name";
  console_log [Val "   Upserted user:"; Val name];;
  (* 7. update many *)
  console_log [Val (nl +:+ "7. UPDATE MANY")];;
  console_log [Val "-------------"];;
  updateResult ← await (prisma Post UpdateMany (VObj [
    ("where", VObj [("published", VBool false)]);
    ("data", VObj [("published", VBool true)])
  ]));
  c ← get updateResult "count";
  console_log [Tpl [Lit "   Published "; Sub c; Lit " draft posts"]];;
  (* 8. transaction *)
  console_log [Val (nl +:+ "8. TRANSACTION")];;
  console_log [Val "-------------"];;
  await (
    renameAlice ← prisma User Update (VObj [
      ("where", VObj [("email", VStr "alice@prisma.io")]);
      ("data", VObj [("name", VStr "Alice Updated")])
    ]);
    newPost ← prisma Post Create (VObj [
      ("data", VObj [
        ("title", VStr "Transaction Post");
        ("content", VStr "Created in transaction");
        ("published", VBool true);
        ("authorId", VNum 1)
      ])
    ]);
    prisma_transaction [renameAlice; newPost]);;
  console_log [Val "   Transaction completed: User updated + Post created"];;
  (* 9. dates and comparisons *)
  console_log [Val (nl +:+ "9. DATES & COMPARISONS")];;
  console_log [Val "---------------------"];;
  now ← date_now;
  recentPosts ← await (prisma Post FindMany (VObj [
    ("where", VObj [
      ("createdAt", VObj [("gte", VDate (now - 24 * 60 * 60 * 1000))])
    ])
  ]));
  n ← get recentPosts "length";
  console_log [Tpl [Lit "   Posts from last 24h: "; Sub n]];;
  (* 10. group by *)
  console_log [Val (nl +:+ "10. GROUP BY")];;
  console_log [Val "-----------"];;
  postsPerUser ← await (prisma Post GroupBy (VObj [
    ("by", VArr [VStr "authorId"]);
    ("_count", VObj [("id", VBool true)])
  ]));
  console_log [Val "   Posts per user:"];;
  forEach postsPerUser (fun group =>
    authorId ← get group "authorId";
    c ← get group "_count";
    n ← get c "id";
    console_log [Tpl [Lit "     Author "; Sub authorId; Lit ": "; Sub n; Lit " posts"]]);;
  console_log [Val (nl +:+ "=== ALL EXAMPLES COMPLETE ===")].

Definition advanced_examples_ts : script DB := {|
  name := "runAllExamples";
  outline := [
    ImportSideEffect "dotenv/config";
    ImportNamed ["PrismaClient"] "./generated/prisma/client.js";
    ConstDecl false "prisma";
    AsyncFunctionDecl false "runAllExamples";
    ExpressionStatement ];
  client_options := fun process_env =>
    {| accelerateUrl := process_env !! "DATABASE_URL" |};
  entry := runAllExamples;
  onRejected := fun e => console_error [Val e];
  onFinally := _ ← await prisma_disconnect; mret ()
|}.

(** The runnable scripts of the repository. *)
Definition scripts : list (script DB) :=
  [queries_ts; example_queries_ts; verify_ts; advanced_examples_ts].
End Scripts.

(** ** A test double for the ORM *)

(** Answers are taken from a prepared list, one per settled request; once
    the list is used up every request is fulfilled with an empty array. *)
#[export] Instance canned_orm : Orm (list settlement) := fun _ answers =>
  match answers with
  | [] => (Fulfilled (VArr []), [])
  | s :: rest => (s, rest)
  end.

Definition boom : value := VObj [("message"%string, VStr "connection refused")].

(** ** A test double for the engine *)

(** A stand-in for the engine in the closed examples, as [canned_orm] is
    one for the ORM; it is not a model of an engine.  Strings are read as
    ASCII, strings and objects convert to NaN, and an error object says only
    what was attempted.  The closed examples reach it for its error objects
    alone: none of them takes a string apart or converts one. *)
Definition type_error (msg : string) : value :=
  VObj [("name"%string, VStr "TypeError"); ("message"%string, VStr msg)].

#[export] Instance ascii_engine : Engine := {|
  string_length s := Z.of_nat (String.length s);
  string_items s := map (fun c => String c EmptyString) (list_ascii_of_string s);
  string_at s i :=
    nth i (map (fun c => VStr (String c EmptyString)) (list_ascii_of_string s)) VUndefined;
  object_to_number _ := None;
  cannot_read _ k := type_error ("Cannot read property " +:+ k);
  not_iterable _ := type_error "is not iterable";
  not_a_function _ k := type_error (k +:+ " is not a function")
|}.

(** ** Observations on a run *)

Definition failures (evs : list event) : list value :=
  flat_map (fun ev => match ev with Settled _ (Rejected e) => [e] | _ => [] end) evs.

Definition issued (evs : list event) : list request :=
  flat_map (fun ev => match ev with Issued r => [r] | _ => [] end) evs.

Definition methods_invoked (evs : list event) : list string :=
  map method_name (issued evs).

Definition clients_constructed (evs : list event) : list PrismaClientOptions :=
  flat_map (fun ev => match ev with Constructed o => [o] | _ => [] end) evs.

Definition invokes (name : string) (evs : list event) : bool :=
  existsb (String.eqb name) (methods_invoked evs).

Definition count_invocations (name : string) (evs : list event) : nat :=
  length (filter (fun m => String.eqb name m = true) (methods_invoked evs)).

(** Calls awaited in turn: every call is settled by the next thing that
    happens, so that no call begins before the one before it has completed.
    With [batch = Some (m1, m2)] a call of [m1] and a call of [m2] may also
    be made one after the other and handed, unsettled, to one
    [$transaction] call that is settled next. *)
Inductive in_turn (batch : option (string * string)) : list event -> Prop :=
| turn_done : in_turn batch []
| turn_client o evs :
    in_turn batch evs -> in_turn batch (Constructed o :: evs)
| turn_call r s evs :
    in_turn batch evs -> in_turn batch (Issued r :: Settled r s :: evs)
| turn_batch a b s evs :
    batch = Some (method_name a, method_name b) -> in_turn batch evs ->
    in_turn batch
      (Issued a :: Issued b :: Issued (Transaction [a; b]) ::
       Settled (Transaction [a; b]) s :: evs).

(** The shape of a trace without a batch: each call is followed at once
    by a settlement. *)
Fixpoint awaited_each (evs : list event) : bool :=
  match evs with
  | [] => true
  | Constructed _ :: rest => awaited_each rest
  | Issued _ :: after =>
      match after with
      | Settled _ _ :: rest => awaited_each rest
      | _ => false
      end
  | Settled _ _ :: _ => false
  end.

(** The calls made right after another call, before anything was settled:
    the methods of the two. *)
Fixpoint back_to_back (evs : list event) : list (string * string) :=
  match evs with
  | [] => []
  | Issued a :: after =>
      match after with
      | Issued b :: _ => (method_name a, method_name b) :: back_to_back after
      | _ => back_to_back after
      end
  | _ :: after => back_to_back after
  end.

(** The answers the ORM gives to the two checks of the verification
    script, asked in order from database [db]: [true] when the connection
    test or one of the two counts is rejected. *)
Definition check_fails {DB : Type} `{!Orm DB} (db : DB) : bool :=
  match orm_exec Connect db with
  | (Rejected _, _) => true
  | (Fulfilled _, db1) =>
      match orm_exec (Query User Count VUndefined) db1 with
      | (Rejected _, _) => true
      | (Fulfilled _, db2) =>
          match orm_exec (Query Post Count VUndefined) db2 with
          | (Rejected _, _) => true
          | (Fulfilled _, _) => false
          end
      end
  end.

(** ** Judgements on computations *)

Section Judgements.
Context {DB : Type} `{!Orm DB} {engine : Engine}.

(** The computation leaves the client alone. *)
Definition quiet {A} (c : M DB A) : Prop :=
  forall w, events (snd (c w)) = events w /\ database (snd (c w)) = database w.

(** Whatever happened before, the calls of the computation are awaited
    in turn. *)
Definition takes_turns {A} (batch : option (string * string)) (c : M DB A) : Prop :=
  forall w, exists evs,
    events (snd (c w)) = events w ++ evs /\ in_turn batch evs.

(** No rejection of the ORM is swallowed: when one occurs it is the last
    thing that happens, and the computation throws that very error. *)
Definition propagates {A} (c : M DB A) : Prop :=
  forall w, failures (events w) = [] ->
    match fst (c w) with
    | Throw e =>
        failures (events (snd (c w))) = [] \/
        exists evs r, events (snd (c w)) = evs ++ [Settled r (Rejected e)] /\
                      failures evs = []
    | _ => failures (events (snd (c w))) = []
    end.

(** On normal completion exactly the methods [ms] have been called, in
    that order. *)
Definition calls {A} (ms : list string) (c : M DB A) : Prop :=
  forall w, (exists a, fst (c w) = Normal a) ->
    methods_invoked (events (snd (c w))) = methods_invoked (events w) ++ ms.

(** The world only grows: events and console lines are appended, the
    clock is not touched. *)
Definition grows {A} (c : M DB A) : Prop :=
  forall w, exists evs out err,
    events (snd (c w)) = events w ++ evs /\
    stdout (snd (c w)) = stdout w ++ out /\
    stderr (snd (c w)) = stderr w ++ err.
End Judgements.

(** ** The runnable scripts by name *)

Inductive runnable := queries | example_queries | verification | advanced_examples.

Definition the_script {DB : Type} `{!Orm DB} `{!Engine} (which : runnable) : script DB :=
  match which with
  | queries => queries_ts
  | example_queries => example_queries_ts
  | verification => verify_ts
  | advanced_examples => advanced_examples_ts
  end.

(** The world in which the main function of a script starts: the client
    has been constructed from the process environment. *)
Definition started {DB : Type} `{!Orm DB} (s : script DB)
    (env dotfile : gmap string string) (db : DB) (now : Z) : world DB :=
  record_event (Constructed (client_options s (dotenv_config env dotfile))) (initial db now).

(** The first line each script writes. *)
Definition banner (which : runnable) : list log_arg :=
  match which with
  | queries => [Val (VStr "Seeding database...")]
  | example_queries => [Val (VStr ("=== PRISMA QUERY EXAMPLES ===" +:+ nl))]
  | verification => [Val (VStr ("=== PRISMA VERIFICATION ===" +:+ nl))]
  | advanced_examples => [Val (VStr ("=== PRISMA ADVANCED EXAMPLES ===" +:+ nl))]
  end.

(** The client methods called by a complete run of each main function. *)
Definition called_on_success (which : runnable) : list string :=
  match which with
  | queries => ["create"; "create"; "findMany"; "findMany"]
  | example_queries =>
      ["create"; "findMany"; "findUnique"; "findMany"; "update"; "delete";
       "count"; "count"; "count"]
  | verification => ["$connect"; "count"; "count"; "findMany"]
  | advanced_examples =>
      ["findMany"; "findMany"; "findMany"; "findMany"; "findMany"; "findMany";
       "findMany"; "count"; "count"; "count"; "findMany"; "upsert"; "updateMany";
       "update"; "create"; "$transaction"; "findMany"; "groupBy"]
  end%string.

(** The six methods the walk-throughs are said to exercise. *)
Definition crud_methods : list string :=
  ["create"; "findMany"; "update"; "delete"; "$transaction"; "groupBy"]%string.

Definition mentions (ms : list string) (m : string) : bool := existsb (String.eqb m) ms.

(** The batch of the [$transaction] step, where a script has one. *)
Definition the_batch (which : runnable) : option (string * string) :=
  match which with
  | advanced_examples => Some ("update", "create")
  | queries | example_queries | verification => None
  end%string.

(** ** The database behind the generated client *)

(** Modelled from the spec: the Prisma schema ([prisma/schema.prisma]) and
    the client generated from it are not part of the sources.  The data
    model of the spec has two entities.  A user has a unique identifier, a
    unique email, an optional display name and a creation timestamp, and
    owns posts. *)
Record user_row := {
  user_id : Z;
  user_email : string;
  user_name : option string;
  user_createdAt : Z
}.

(** Modelled from the spec: a post has a unique identifier, a title, an
    optional text content, a published flag (default false), a creation
    timestamp and a reference to its owning user. *)
Record post_row := {
  post_id : Z;
  post_title : string;
  post_content : option string;
  post_published : bool;
  post_createdAt : Z;
  post_authorId : Z
}.

(** Modelled from the spec: the schema declares referential integrity of
    [authorId].  The schema shown in the repository's guides gives the
    relation no [onDelete] action, and a required relation without one
    refuses the deletion of a user who still owns posts ([Restrict]); with
    [Cascade] the posts would go with their user. *)
Inductive referential_action := Cascade | Restrict.

(** Modelled from the spec: the persisted state.  Users are keyed by their
    unique email, posts by their unique identifier. *)
Record store := {
  users : gmap string user_row;
  posts : gmap Z post_row;
  next_user_id : Z;
  next_post_id : Z;
  today : Z;
  onDelete : referential_action
}.

Definition prop (v : value) (k : string) : value :=
  match v with
  | VObj fs => field k fs
  | _ => VUndefined
  end.

Definition as_string (v : value) : option string :=
  match v with VStr s => Some s | _ => None end.

Definition as_optional_string (v : value) : option (option string) :=
  match v with
  | VStr s => Some (Some s)
  | VNull | VUndefined => Some None
  | _ => None
  end.

Definition optional_string_value (o : option string) : value :=
  match o with Some s => VStr s | None => VNull end.

Definition user_fields (u : user_row) : list (string * value) :=
  [("id"%string, VNum (user_id u)); ("email"%string, VStr (user_email u));
   ("name"%string, optional_string_value (user_name u));
   ("createdAt"%string, VDate (user_createdAt u))].

Definition post_fields (p : post_row) : list (string * value) :=
  [("id"%string, VNum (post_id p)); ("title"%string, VStr (post_title p));
   ("content"%string, optional_string_value (post_content p));
   ("published"%string, VBool (post_published p));
   ("createdAt"%string, VDate (post_createdAt p));
   ("authorId"%string, VNum (post_authorId p))].

Definition all_users (db : store) : list user_row := (map_to_list (users db)).*2.
Definition all_posts (db : store) : list post_row := (map_to_list (posts db)).*2.

Definition posts_of (db : store) (u : user_row) : list post_row :=
  filter (fun p => post_authorId p = user_id u) (all_posts db).

Definition author_of (db : store) (p : post_row) : option user_row :=
  head (filter (fun u => user_id u = post_authorId p) (all_users db)).

Definition user_value (db : store) (include : value) (u : user_row) : value :=
  VObj (user_fields u ++
        if truthy (prop include "posts")
        then [("posts"%string, VArr (map (fun p => VObj (post_fields p)) (posts_of db u)))]
        else []).

Definition post_value (db : store) (include : value) (p : post_row) : value :=
  VObj (post_fields p ++
        if truthy (prop include "author")
        then [("author"%string,
               match author_of db p with
               | Some u => VObj (user_fields u)
               | None => VNull
               end)]
        else []).

Definition matches_published (where_ : value) (p : post_row) : bool :=
  match prop where_ "published" with
  | VBool b => Bool.eqb b (post_published p)
  | _ => true
  end.

Definition decode_post (v : value) : option (string * option string * bool) :=
  title ← as_string (prop v "title");
  content ← as_optional_string (prop v "content");
  published ← match prop v "published" with
              | VBool b => Some b
              | VUndefined => Some false
              | _ => None
              end;
  Some (title, content, published).

Definition decode_posts (v : value) : option (list (string * option string * bool)) :=
  match prop v "create" with
  | VUndefined => Some []
  | VObj fs => p ← decode_post (VObj fs); Some [p]
  | VArr vs => mapM decode_post vs
  | _ => None
  end.

Fixpoint add_posts (author now : Z) (ps : list (string * option string * bool))
    (next : Z) (m : gmap Z post_row) : Z * gmap Z post_row :=
  match ps with
  | [] => (next, m)
  | (title, content, published) :: rest =>
      add_posts author now rest (next + 1)
        (<[next := {| post_id := next; post_title := title; post_content := content;
                      post_published := published; post_createdAt := now;
                      post_authorId := author |}]> m)
  end.

Definition rejected (msg : string) (db : store) : settlement * store :=
  (Rejected (VObj [("message"%string, VStr msg)]), db).

(** Modelled from the spec: [prisma.user.create] adds a user and the posts
    given with it; the email must be free (it is unique). *)
Definition create_user (email : string) (name : option string)
    (ps : list (string * option string * bool)) (db : store) : settlement * store :=
  match users db !! email with
  | Some _ => rejected "Unique constraint failed on the fields: (`email`)" db
  | None =>
      let u := {| user_id := next_user_id db; user_email := email; user_name := name;
                  user_createdAt := today db |} in
      let '(next, posts') := add_posts (user_id u) (today db) ps (next_post_id db) (posts db) in
      (Fulfilled (VObj (user_fields u)),
       {| users := <[email := u]> (users db); posts := posts';
          next_user_id := next_user_id db + 1; next_post_id := next;
          today := today db; onDelete := onDelete db |})
  end.

(** Modelled from the spec: [prisma.user.update] by email; [name] is the
    new display name, [None] when the call leaves the name as it is. *)
Definition update_user (email : string) (name : option (option string)) (db : store) : settlement * store :=
  match users db !! email with
  | None => rejected "Record to update not found." db
  | Some u =>
      let u' := {| user_id := user_id u; user_email := user_email u;
                   user_name := default (user_name u) name;
                   user_createdAt := user_createdAt u |} in
      (Fulfilled (VObj (user_fields u')),
       {| users := <[email := u']> (users db); posts := posts db;
          next_user_id := next_user_id db; next_post_id := next_post_id db;
          today := today db; onDelete := onDelete db |})
  end.

(** Modelled from the spec: [prisma.user.delete] by email, under the
    referential action of the schema. *)
Definition delete_user (email : string) (db : store) : settlement * store :=
  match users db !! email with
  | None => rejected "Record to delete does not exist." db
  | Some u =>
      let removed posts' :=
        (Fulfilled (VObj (user_fields u)),
         {| users := delete email (users db); posts := posts';
            next_user_id := next_user_id db; next_post_id := next_post_id db;
            today := today db; onDelete := onDelete db |}) in
      match onDelete db, posts_of db u with
      | Restrict, _ :: _ => rejected "Foreign key constraint violated" db
      | Restrict, [] => removed (posts db)
      | Cascade, _ =>
          removed (filter (fun kp => post_authorId (snd kp) <> user_id u) (posts db))
      end
  end.

(** Modelled from the spec: the calls of the CRUD walk-through against the
    two entities; every other request is refused. *)
#[export] Instance prisma_store : Orm store := fun r db =>
  match r with
  | Connect | Disconnect => (Fulfilled VUndefined, db)
  | Query User Create args =>
      let data := prop args "data" in
      match as_string (prop data "email"), as_optional_string (prop data "name"),
            decode_posts (prop data "posts") with
      | Some email, Some name, Some ps => create_user email name ps db
      | _, _, _ => rejected "Invalid `prisma.user.create()` invocation" db
      end
  | Query User FindMany args =>
      (Fulfilled (VArr (map (user_value db (prop args "include")) (all_users db))), db)
  | Query User FindUnique args =>
      match as_string (prop (prop args "where") "email") with
      | Some email =>
          (Fulfilled (match users db !! email with
                      | Some u => user_value db (prop args "include") u
                      | None => VNull
                      end), db)
      | None => rejected "Invalid `prisma.user.findUnique()` invocation" db
      end
  | Query User Update args =>
      match as_string (prop (prop args "where") "email"), prop (prop args "data") "name" with
      | Some email, VStr name => update_user email (Some (Some name)) db
      | Some email, VNull => update_user email (Some None) db
      | Some email, VUndefined => update_user email None db
      | _, _ => rejected "Invalid `prisma.user.update()` invocation" db
      end
  | Query User Delete args =>
      match as_string (prop (prop args "where") "email") with
      | Some email => delete_user email db
      | None => rejected "Invalid `prisma.user.delete()` invocation" db
      end
  | Query User Count _ =>
      (Fulfilled (VNum (Z.of_nat (length (all_users db)))), db)
  | Query Post FindMany args =>
      (Fulfilled (VArr (map (post_value db (prop args "include"))
                          (filter (fun p => matches_published (prop args "where") p = true)
                                  (all_posts db)))), db)
  | Query Post Count args =>
      (Fulfilled (VNum (Z.of_nat (length
         (filter (fun p => matches_published (prop args "where") p = true) (all_posts db))))), db)
  | _ => rejected "not part of the walk-through" db
  end.

Definition empty_store (action : referential_action) : store :=
  {| users := ∅; posts := ∅; next_user_id := 1; next_post_id := 1; today := 0;
     onDelete := action |}.

(** ** The requests of the CRUD walk-through *)

Definition charlie : string := "charlie@prisma.io".

(** The requests [example-queries.ts] makes up to and including its delete
    step, in order. *)
Definition walk_through_requests : list request :=
  [ Query User Create (VObj [
      ("data", VObj [
        ("email", VStr "charlie@prisma.io");
        ("name", VStr "Charlie");
        ("posts", VObj [
          ("create", VObj [
            ("title", VStr "Charlie introduction");
            ("content", VStr "Hi everyone!");
            ("published", VBool true)
          ])
        ])
      ])
    ]);
    Query User FindMany VUndefined;
    Query User FindUnique (VObj [
      ("where", VObj [("email", VStr "alice@prisma.io")]);
      ("include", VObj [("posts", VBool true)])
    ]);
    Query Post FindMany (VObj [
      ("where", VObj [("published", VBool true)]);
      ("include", VObj [("author", VBool true)])
    ]);
    Query User Update (VObj [
      ("where", VObj [("email", VStr "charlie@prisma.io")]);
      ("data", VObj [("name", VStr "Charles")])
    ]);
    Query User Delete (VObj [
      ("where", VObj [("email", VStr "charlie@prisma.io")])
    ]) ]%string.

(** Requests made in order until one is rejected: the error of that one,
    if any, and the database left behind. *)
Fixpoint first_refusal {DB : Type} `{!Orm DB} (rs : list request) (db : DB) : option value * DB :=
  match rs with
  | [] => (None, db)
  | r :: rest =>
      match orm_exec r db with
      | (Fulfilled _, db') => first_refusal rest db'
      | (Rejected e, db') => (Some e, db')
      end
  end.

(** ** Reading rows without effects *)

Definition nullish (v : value) : bool :=
  match v with
  | VUndefined | VNull => true
  | _ => false
  end.

(** The value of [v.k] when [v] is neither [undefined] nor [null]. *)
Definition read `{!Engine} (v : value) (k : string) : value :=
  match v with
  | VObj fs => field k fs
  | VArr xs => if String.eqb k "length" then VNum (Z.of_nat (length xs)) else VUndefined
  | VStr s => if String.eqb k "length" then VNum (string_length s) else VUndefined
  | _ => VUndefined
  end.

(** The value of [v[i]] when [v] is neither [undefined] nor [null]. *)
Definition element `{!Engine} (v : value) (i : nat) : value :=
  match v with
  | VObj fs => field (index_key i) fs
  | VArr xs => nth i xs VUndefined
  | VStr s => string_at s i
  | _ => VUndefined
  end.

(** What [for ... of] iterates over; [None] for a value that is not
    iterable. *)
Definition items `{!Engine} (v : value) : option (list value) :=
  match v with
  | VArr xs => Some xs
  | VStr s => Some (map VStr (string_items s))
  | _ => None
  end.

(** The world after some lines have been written with [console.log]. *)
Definition print {DB : Type} (lines : list (list log_arg)) (w : world DB) : world DB :=
  World (database w) (clock w) (stdout w ++ lines) (stderr w) (events w).

(** ** The listing of the verification script *)

Definition user_line `{!Engine} (user : value) : list log_arg :=
  [Tpl [Lit "   User: "; Sub (read user "name"); Lit " ("; Sub (read user "email"); Lit ")"]].

Definition post_line `{!Engine} (post : value) : list log_arg :=
  [Tpl [Lit "     - Post: "; Lit dquote; Sub (read post "title"); Lit dquote; Lit " (";
        Lit (if truthy (read post "published") then "published" else "draft"); Lit ")"]].

(** The lines of one user: the user and then each of its posts. *)
Definition row_lines `{!Engine} (user : value) : list (list log_arg) :=
  user_line user :: map post_line (default [] (items (read user "posts"))).

Definition listing `{!Engine} (rows : list value) : list (list log_arg) := flat_map row_lines rows.

(** A row the listing can go through: it is an actual value, its posts
    can be iterated, and each of them is an actual value. *)
Definition listable `{!Engine} (user : value) : bool :=
  negb (nullish user) &&
  match items (read user "posts") with
  | Some ps => forallb (fun p => negb (nullish p)) ps
  | None => false
  end.

Definition show_all_request : request :=
  Query User FindMany (VObj [("include"%string, VObj [("posts"%string, VBool true)])]).

(** ** The opening requests of the advanced examples *)

Definition users_starting_with_A_request : request :=
  Query User FindMany (VObj [
    ("where", VObj [("name", insensitive "startsWith" "A")])
  ])%string.

Definition posts_mentioning_request : request :=
  Query Post FindMany (VObj [
    ("where", VObj [
      ("OR", VArr [
        VObj [("title", insensitive "contains" "post")];
        VObj [("content", insensitive "contains" "post")]
      ])
    ])
  ])%string.

Definition published_by_alice_request : request :=
  Query Post FindMany (VObj [
    ("where", VObj [
      ("AND", VArr [
        VObj [("published", VBool true)];
        VObj [("author", VObj [("email", VStr "alice@prisma.io")])]
      ])
    ])
  ])%string.

Definition first_page_request : request :=
  Query Post FindMany (VObj [
    ("skip", VNum 0);
    ("take", VNum 2);
    ("orderBy", VObj [("createdAt", VStr "desc")])
  ])%string.

(** [firstPage.length > 0 ? { id: firstPage[0].id } : undefined] *)
Definition cursor_for `{!Engine} (firstPage : value) : value :=
  if js_gt (read firstPage "length") 0
  then VObj [("id"%string, read (element firstPage 0) "id")]
  else VUndefined.

Definition cursor_page_request `{!Engine} (firstPage : value) : request :=
  Query Post FindMany (VObj [
    ("take", VNum 2);
    ("cursor", cursor_for firstPage);
    ("orderBy", VObj [("createdAt", VStr "desc")])
  ])%string.

(** ** The shape of a main function's run *)

(** Events a main function may cause: it never constructs a client and
    never touches [$disconnect]. *)
Definition body_event (ev : event) : bool :=
  match ev with
  | Constructed _ | Issued Disconnect | Settled Disconnect _ => false
  | _ => true
  end.

(** The computation calls the methods [ms] in that order and stops short
    only by leaving the rest out; it writes nothing to stderr, causes only
    [body_event]s and never ends the process. *)
Definition follows {DB : Type} `{!Orm DB} {A} (ms : list string) (c : M DB A) : Prop :=
  forall w, exists evs,
    events (snd (c w)) = events w ++ evs /\
    stderr (snd (c w)) = stderr w /\
    forallb body_event evs = true /\
    (forall n, fst (c w) <> Exit n) /\
    (exists rest, ms = methods_invoked evs ++ rest) /\
    ((exists a, fst (c w) = Normal a) -> methods_invoked evs = ms).

(** The methods a whole run of a script may call. *)
Definition may_call (which : runnable) : list string :=
  called_on_success which ++ ["$disconnect"%string].

(** ** What a run prints *)




Section Reporting.
Context {DB : Type} `{!Orm DB}.


End Reporting.

(** * Properties *)

(** ** Event lists *)

Lemma failures_app evs1 evs2 : failures (evs1 ++ evs2) = failures evs1 ++ failures evs2.
Proof. apply flat_map_app. Qed.

Lemma issued_app evs1 evs2 : issued (evs1 ++ evs2) = issued evs1 ++ issued evs2.
Proof. apply flat_map_app. Qed.

Lemma methods_invoked_app evs1 evs2 :
  methods_invoked (evs1 ++ evs2) = methods_invoked evs1 ++ methods_invoked evs2.
Proof. unfold methods_invoked. rewrite issued_app. apply map_app. Qed.

Lemma in_turn_app batch evs1 evs2 :
  in_turn batch evs1 -> in_turn batch evs2 -> in_turn batch (evs1 ++ evs2).
Proof.
  intros H1 H2. induction H1; simpl.
  - exact H2.
  - apply turn_client. assumption.
  - apply turn_call. assumption.
  - apply turn_batch; assumption.
Qed.

Lemma in_turn_awaited_each evs : in_turn None evs -> awaited_each evs = true.
Proof.
  intros H. induction H; simpl; first [assumption | reflexivity | discriminate].
Qed.

Lemma in_failures r e evs : In (Settled r (Rejected e)) evs -> In e (failures evs).
Proof.
  intros H. unfold failures. apply in_flat_map.
  exists (Settled r (Rejected e)). split; [exact H | left; reflexivity].
Qed.

(** ** Rules of the judgements *)

Section Rules.
Context {DB : Type} `{!Orm DB} {engine : Engine}.
Implicit Types w : world DB.

Lemma run_bind {A B} (c : M DB A) (k : A -> M DB B) w :
  (c ≫= k) w =
  match c w with
  | (Normal a, w') => k a w'
  | (Return v, w') => (Return v, w')
  | (Throw e, w') => (Throw e, w')
  | (Exit n, w') => (Exit n, w')
  end.
Proof. reflexivity. Qed.

(** *** Computations that leave the client alone *)

Lemma quiet_ret {A} (a : A) : quiet (mret a : M DB A).
Proof. intros w. split; reflexivity. Qed.

Lemma quiet_bind {A B} (c : M DB A) (k : A -> M DB B) :
  quiet c -> (forall a, quiet (k a)) -> quiet (c ≫= k).
Proof.
  intros Hc Hk w. rewrite run_bind. destruct (Hc w) as [He Hd].
  destruct (c w) as [[a|v|e|n] w']; simpl in *; try (split; assumption).
  destruct (Hk a w') as [He' Hd']. split; congruence.
Qed.

Lemma quiet_console_log args : quiet (console_log args : M DB ()).
Proof. intros w. split; reflexivity. Qed.

Lemma quiet_console_error args : quiet (console_error args : M DB ()).
Proof. intros w. split; reflexivity. Qed.

Lemma quiet_throw {A} e : quiet (throw e : M DB A).
Proof. intros w. split; reflexivity. Qed.

Lemma quiet_return {A} v : quiet (return_ v : M DB A).
Proof. intros w. split; reflexivity. Qed.

Lemma quiet_process_exit {A} n : quiet (process_exit n : M DB A).
Proof. intros w. split; reflexivity. Qed.

Lemma quiet_date_now : quiet (date_now : M DB Z).
Proof. intros w. split; reflexivity. Qed.

Lemma quiet_get v k : quiet (get v k : M DB value).
Proof. intros w. destruct v; split; reflexivity. Qed.

Lemma quiet_index v i : quiet (index v i : M DB value).
Proof. intros w. destruct v; split; reflexivity. Qed.

Lemma quiet_if {A} (b : bool) (c1 c2 : M DB A) :
  quiet c1 -> quiet c2 -> quiet (if b then c1 else c2).
Proof. destruct b; auto. Qed.

Lemma quiet_each xs (body : value -> M DB ()) :
  (forall x, quiet (body x)) -> quiet (each xs body).
Proof.
  intros Hb. induction xs as [|x xs IH]; simpl.
  - apply quiet_ret.
  - apply quiet_bind; auto.
Qed.

Lemma quiet_for_of v (body : value -> M DB ()) :
  (forall x, quiet (body x)) -> quiet (for_of v body).
Proof.
  intros Hb. destruct v; simpl; first [apply quiet_each; assumption | apply quiet_throw].
Qed.

Lemma quiet_forEach v (callback : value -> M DB ()) :
  (forall x, quiet (callback x)) -> quiet (forEach v callback).
Proof.
  intros Hb. destruct v; simpl; first [apply quiet_each; assumption | apply quiet_throw].
Qed.
End Rules.

(** Decomposes a goal [quiet c] along the structure of [c]. *)
Ltac quiet_tac :=
  repeat (intros;
    lazymatch goal with
    | |- quiet (mbind _ _) => apply quiet_bind
    | |- quiet (mret _) => apply quiet_ret
    | |- quiet (console_log _) => apply quiet_console_log
    | |- quiet (console_error _) => apply quiet_console_error
    | |- quiet (throw _) => apply quiet_throw
    | |- quiet (return_ _) => apply quiet_return
    | |- quiet (process_exit _) => apply quiet_process_exit
    | |- quiet date_now => apply quiet_date_now
    | |- quiet (get _ _) => apply quiet_get
    | |- quiet (index _ _) => apply quiet_index
    | |- quiet (if _ then _ else _) => apply quiet_if
    | |- quiet (for_of _ _) => apply quiet_for_of
    | |- quiet (forEach _ _) => apply quiet_forEach
    | |- quiet (each _ _) => apply quiet_each
    end).

Section GrowthRules.
Context {DB : Type} `{!Orm DB} {engine : Engine}.
Implicit Types w : world DB.

(** *** The world only grows *)

Lemma grows_same {A} (c : M DB A) :
  (forall w, events (snd (c w)) = events w /\ stdout (snd (c w)) = stdout w /\
             stderr (snd (c w)) = stderr w) ->
  grows c.
Proof.
  intros H w. destruct (H w) as (He & Ho & Hr).
  exists [], [], []. rewrite !app_nil_r. auto.
Qed.

Lemma grows_ret {A} (a : A) : grows (mret a : M DB A).
Proof. apply grows_same. intros w. auto. Qed.

Lemma grows_bind {A B} (c : M DB A) (k : A -> M DB B) :
  grows c -> (forall a, grows (k a)) -> grows (c ≫= k).
Proof.
  intros Hc Hk w. rewrite run_bind.
  destruct (Hc w) as (evs & out & err & He & Ho & Hr).
  destruct (c w) as [[a|v|e|n] w']; simpl in *;
    try solve [exists evs, out, err; auto].
  destruct (Hk a w') as (evs' & out' & err' & He' & Ho' & Hr').
  exists (evs ++ evs'), (out ++ out'), (err ++ err').
  rewrite !app_assoc, <- He, <- Ho, <- Hr. auto.
Qed.

Lemma grows_console_log args : grows (console_log args : M DB ()).
Proof. intros w. exists [], [args], []. simpl. rewrite !app_nil_r. auto. Qed.

Lemma grows_console_error args : grows (console_error args : M DB ()).
Proof. intros w. exists [], [], [args]. simpl. rewrite !app_nil_r. auto. Qed.

Lemma grows_throw {A} e : grows (throw e : M DB A).
Proof. apply grows_same. intros w. auto. Qed.

Lemma grows_return {A} v : grows (return_ v : M DB A).
Proof. apply grows_same. intros w. auto. Qed.

Lemma grows_process_exit {A} n : grows (process_exit n : M DB A).
Proof. apply grows_same. intros w. auto. Qed.

Lemma grows_date_now : grows (date_now : M DB Z).
Proof. apply grows_same. intros w. auto. Qed.

Lemma grows_get v k : grows (get v k : M DB value).
Proof. apply grows_same. intros w. destruct v; auto. Qed.

Lemma grows_index v i : grows (index v i : M DB value).
Proof. apply grows_same. intros w. destruct v; auto. Qed.

Lemma grows_if {A} (b : bool) (c1 c2 : M DB A) :
  grows c1 -> grows c2 -> grows (if b then c1 else c2).
Proof. destruct b; auto. Qed.

Lemma grows_each xs (body : value -> M DB ()) :
  (forall x, grows (body x)) -> grows (each xs body).
Proof.
  intros Hb. induction xs as [|x xs IH]; simpl.
  - apply grows_ret.
  - apply grows_bind; auto.
Qed.

Lemma grows_for_of v (body : value -> M DB ()) :
  (forall x, grows (body x)) -> grows (for_of v body).
Proof.
  intros Hb. destruct v; simpl; first [apply grows_each; assumption | apply grows_throw].
Qed.

Lemma grows_forEach v (callback : value -> M DB ()) :
  (forall x, grows (callback x)) -> grows (forEach v callback).
Proof.
  intros Hb. destruct v; simpl; first [apply grows_each; assumption | apply grows_throw].
Qed.

Lemma grows_new_PrismaClient o : grows (new_PrismaClient o : M DB ()).
Proof. intros w. exists [Constructed o], [], []. simpl. rewrite !app_nil_r. auto. Qed.

Lemma grows_issue r : grows (issue r : M DB request).
Proof. intros w. exists [Issued r], [], []. simpl. rewrite !app_nil_r. auto. Qed.

Lemma grows_settle p : grows (settle p : M DB value).
Proof.
  intros w. unfold settle. destruct (orm_exec p (database w)) as [s db].
  exists [Settled p s], [], []. destruct s; simpl; rewrite !app_nil_r; auto.
Qed.

Lemma grows_await (call : M DB request) : grows call -> grows (await call).
Proof. intros Hc. apply grows_bind; [exact Hc | intros p; apply grows_settle]. Qed.

Lemma grows_try_catch {A} (body : M DB A) (handler : value -> M DB A) :
  grows body -> (forall e, grows (handler e)) -> grows (try_catch body handler).
Proof.
  intros Hb Hh w. unfold try_catch.
  destruct (Hb w) as (evs & out & err & He & Ho & Hr).
  destruct (body w) as [[a|v|e|n] w']; simpl in *;
    try solve [exists evs, out, err; auto].
  destruct (Hh e w') as (evs' & out' & err' & He' & Ho' & Hr').
  exists (evs ++ evs'), (out ++ out'), (err ++ err').
  rewrite !app_assoc, <- He, <- Ho, <- Hr. auto.
Qed.

Lemma grows_call_async (body : M DB ()) : grows body -> grows (call_async body).
Proof.
  intros Hb w. unfold call_async.
  destruct (Hb w) as (evs & out & err & He & Ho & Hr).
  destruct (body w) as [[a|v|e|n] w']; simpl in *; exists evs, out, err; auto.
Qed.

Lemma grows_promise_catch p (onRejected : value -> M DB ()) :
  (forall e, grows (onRejected e)) -> grows (promise_catch p onRejected).
Proof.
  intros Hh. destruct p; simpl; [apply grows_ret | apply grows_call_async, Hh].
Qed.

Lemma grows_promise_finally p (onFinally : M DB ()) :
  grows onFinally -> grows (promise_finally p onFinally).
Proof.
  intros Hf. apply grows_bind; [apply grows_call_async, Hf |].
  intros [v|e]; apply grows_ret.
Qed.
End GrowthRules.

(** Decomposes a goal [grows c] along the structure of [c]. *)
Ltac grows_tac :=
  repeat (intros;
    lazymatch goal with
    | |- grows (mbind _ _) => apply grows_bind
    | |- grows (mret _) => apply grows_ret
    | |- grows (console_log _) => apply grows_console_log
    | |- grows (console_error _) => apply grows_console_error
    | |- grows (throw _) => apply grows_throw
    | |- grows (return_ _) => apply grows_return
    | |- grows (process_exit _) => apply grows_process_exit
    | |- grows date_now => apply grows_date_now
    | |- grows (get _ _) => apply grows_get
    | |- grows (index _ _) => apply grows_index
    | |- grows (if _ then _ else _) => apply grows_if
    | |- grows (for_of _ _) => apply grows_for_of
    | |- grows (forEach _ _) => apply grows_forEach
    | |- grows (each _ _) => apply grows_each
    | |- grows (await _) => apply grows_await
    | |- grows (issue _) => apply grows_issue
    | |- grows (prisma _ _ _) => apply grows_issue
    | |- grows prisma_connect => apply grows_issue
    | |- grows prisma_disconnect => apply grows_issue
    | |- grows (prisma_transaction _) => apply grows_issue
    | |- grows (settle _) => apply grows_settle
    | |- grows (try_catch _ _) => apply grows_try_catch
    | |- grows (call_async _) => apply grows_call_async
    | |- grows (promise_catch _ _) => apply grows_promise_catch
    | |- grows (promise_finally _ _) => apply grows_promise_finally
    | |- grows (new_PrismaClient _) => apply grows_new_PrismaClient
    end).

Section ScriptsGrow.
Context {DB : Type} `{!Orm DB} {engine : Engine}.

Lemma grows_entry (which : runnable) : grows (entry (the_script which)).
Proof.
  destruct which; simpl.
  - unfold queries_main. grows_tac.
  - unfold example_queries_main, example_create, example_read, example_update,
      example_delete, example_aggregation. grows_tac.
  - unfold verify, verify_connection, verify_tables, verify_show. grows_tac.
  - unfold runAllExamples. grows_tac.
Qed.
End ScriptsGrow.

Section TurnRules.
Context {DB : Type} `{!Orm DB} {engine : Engine}.
Implicit Types w : world DB.

(** *** Calls awaited in turn *)

Lemma takes_turns_quiet {A} batch (c : M DB A) : quiet c -> takes_turns batch c.
Proof.
  intros Hq w. destruct (Hq w) as [He _].
  exists []. rewrite app_nil_r. split; [exact He | constructor].
Qed.

Lemma takes_turns_bind {A B} batch (c : M DB A) (k : A -> M DB B) :
  takes_turns batch c -> (forall a, takes_turns batch (k a)) ->
  takes_turns batch (c ≫= k).
Proof.
  intros Hc Hk w. rewrite run_bind. destruct (Hc w) as (evs & He & Ht).
  destruct (c w) as [[a|v|e|x] w']; simpl in *; try solve [exists evs; auto].
  destruct (Hk a w') as (evs' & He' & Ht').
  exists (evs ++ evs'). rewrite app_assoc, <- He. split; [exact He' |].
  apply in_turn_app; assumption.
Qed.

Lemma takes_turns_await_issue batch r : takes_turns batch (await (issue r)).
Proof.
  intros w. unfold await. rewrite run_bind. simpl. unfold settle. simpl.
  destruct (orm_exec r (database w)) as [s db].
  exists [Issued r; Settled r s].
  split; [destruct s; simpl; rewrite <- app_assoc; reflexivity | repeat constructor].
Qed.

(** The batch form of [$transaction] with two operations: both are
    called, then [$transaction] with the two, and the one [await] is on
    the transaction. *)
Lemma takes_turns_transaction batch r1 r2 :
  batch = Some (method_name r1, method_name r2) ->
  takes_turns batch (await (p1 ← issue r1; p2 ← issue r2; prisma_transaction [p1; p2])).
Proof.
  intros Hbatch w. unfold await, prisma_transaction.
  rewrite !run_bind. simpl. unfold settle. simpl.
  destruct (orm_exec (Transaction [r1; r2]) (database w)) as [s db].
  exists [Issued r1; Issued r2; Issued (Transaction [r1; r2]);
          Settled (Transaction [r1; r2]) s].
  split; [destruct s; simpl; rewrite <- !app_assoc; reflexivity |].
  apply turn_batch; [exact Hbatch | constructor].
Qed.

Lemma takes_turns_try_catch {A} batch (body : M DB A) (handler : value -> M DB A) :
  takes_turns batch body -> (forall e, takes_turns batch (handler e)) ->
  takes_turns batch (try_catch body handler).
Proof.
  intros Hb Hh w. unfold try_catch. destruct (Hb w) as (evs & He & Ht).
  destruct (body w) as [[a|v|e|x] w']; simpl in *; try solve [exists evs; auto].
  destruct (Hh e w') as (evs' & He' & Ht').
  exists (evs ++ evs'). rewrite app_assoc, <- He. split; [exact He' |].
  apply in_turn_app; assumption.
Qed.

Lemma takes_turns_new_PrismaClient batch o :
  takes_turns batch (new_PrismaClient o : M DB ()).
Proof. intros w. exists [Constructed o]. split; [reflexivity | repeat constructor]. Qed.

Lemma takes_turns_call_async batch (body : M DB ()) :
  takes_turns batch body -> takes_turns batch (call_async body).
Proof.
  intros Hb w. unfold call_async. destruct (Hb w) as (evs & He & Ht).
  destruct (body w) as [[a|v|e|x] w']; simpl in *; exists evs; auto.
Qed.

Lemma takes_turns_promise_catch batch p (onRejected : value -> M DB ()) :
  (forall e, takes_turns batch (onRejected e)) ->
  takes_turns batch (promise_catch p onRejected).
Proof.
  intros Hh. destruct p; simpl.
  - apply takes_turns_quiet, quiet_ret.
  - apply takes_turns_call_async, Hh.
Qed.

Lemma takes_turns_promise_finally batch p (onFinally : M DB ()) :
  takes_turns batch onFinally -> takes_turns batch (promise_finally p onFinally).
Proof.
  intros Hf. apply takes_turns_bind; [apply takes_turns_call_async, Hf |].
  intros [v|e]; apply takes_turns_quiet, quiet_ret.
Qed.

(** *** Rejections are not swallowed *)

Lemma propagates_quiet {A} (c : M DB A) : quiet c -> propagates c.
Proof.
  intros Hq w Hf. destruct (Hq w) as [He _]. rewrite He.
  destruct (fst (c w)); auto.
Qed.

Lemma propagates_bind {A B} (c : M DB A) (k : A -> M DB B) :
  propagates c -> (forall a, propagates (k a)) -> propagates (c ≫= k).
Proof.
  intros Hc Hk w Hf. rewrite run_bind. specialize (Hc w Hf).
  destruct (c w) as [[a|v|e|x] w']; simpl in *; auto.
  apply Hk; exact Hc.
Qed.

Lemma propagates_issue r : propagates (issue r : M DB request).
Proof.
  intros w Hf. simpl. rewrite failures_app, Hf. reflexivity.
Qed.

Lemma propagates_settle p : propagates (settle p : M DB value).
Proof.
  intros w Hf. unfold settle. destruct (orm_exec p (database w)) as [[v|e] db]; simpl.
  - rewrite failures_app, Hf. reflexivity.
  - right. exists (events w), p. auto.
Qed.

Lemma propagates_await (call : M DB request) : propagates call -> propagates (await call).
Proof. intros Hc. apply propagates_bind; [exact Hc | intros p; apply propagates_settle]. Qed.

(** *** Methods called on the way to a normal completion *)

Lemma calls_eq {A} ms ms' (c : M DB A) : calls ms c -> ms = ms' -> calls ms' c.
Proof. intros Hc <-. exact Hc. Qed.

Lemma calls_quiet {A} (c : M DB A) : quiet c -> calls [] c.
Proof.
  intros Hq w _. destruct (Hq w) as [He _]. rewrite He, app_nil_r. reflexivity.
Qed.

Lemma calls_bind {A B} ms1 ms2 (c : M DB A) (k : A -> M DB B) :
  calls ms1 c -> (forall a, calls ms2 (k a)) -> calls (ms1 ++ ms2) (c ≫= k).
Proof.
  intros Hc Hk w [b Hb]. rewrite run_bind in *. specialize (Hc w).
  destruct (c w) as [[a|v|e|x] w']; simpl in *; try discriminate.
  rewrite (Hk a w') by eauto. rewrite Hc by eauto. rewrite app_assoc. reflexivity.
Qed.

Lemma calls_prisma m op args : calls [operation_name op] (prisma m op args : M DB request).
Proof. intros w _. simpl. rewrite methods_invoked_app. reflexivity. Qed.

Lemma calls_prisma_connect : calls ["$connect"%string] (prisma_connect : M DB request).
Proof. intros w _. simpl. rewrite methods_invoked_app. reflexivity. Qed.

Lemma calls_prisma_transaction batch :
  calls ["$transaction"%string] (prisma_transaction batch : M DB request).
Proof. intros w _. simpl. rewrite methods_invoked_app. reflexivity. Qed.

Lemma calls_settle p : calls [] (settle p : M DB value).
Proof.
  intros w _. unfold settle. destruct (orm_exec p (database w)) as [[v|e] db]; simpl;
    rewrite methods_invoked_app, app_nil_r; simpl; rewrite app_nil_r; reflexivity.
Qed.

Lemma calls_await ms (call : M DB request) : calls ms call -> calls ms (await call).
Proof.
  intros Hc. eapply calls_eq.
  - apply calls_bind; [exact Hc | intros p; apply calls_settle].
  - apply app_nil_r.
Qed.

(** A handler that never completes normally does not add to the calls
    of a normal completion. *)
Lemma calls_try_catch {A} ms (body : M DB A) (handler : value -> M DB A) :
  calls ms body -> (forall e w a, fst (handler e w) <> Normal a) ->
  calls ms (try_catch body handler).
Proof.
  intros Hb Hh w [a Ha]. unfold try_catch in *. specialize (Hb w).
  destruct (body w) as [[b|v|e|x] w']; simpl in *; try discriminate.
  - apply Hb. eauto.
  - exfalso. exact (Hh e w' a Ha).
Qed.
End TurnRules.

Ltac turns_tac :=
  repeat (intros;
    lazymatch goal with
    | |- takes_turns _ (mbind _ _) => apply takes_turns_bind
    | |- takes_turns _ (await (mbind _ _)) => apply takes_turns_transaction; reflexivity
    | |- takes_turns _ (await _) => apply takes_turns_await_issue
    | |- takes_turns _ (try_catch _ _) => apply takes_turns_try_catch
    | |- takes_turns _ _ => apply takes_turns_quiet; quiet_tac
    end).

Ltac propagates_tac :=
  repeat (intros;
    lazymatch goal with
    | |- propagates (mbind _ _) => apply propagates_bind
    | |- propagates (await _) => apply propagates_await
    | |- propagates (issue _) => apply propagates_issue
    | |- propagates (prisma _ _ _) => apply propagates_issue
    | |- propagates (prisma_transaction _) => apply propagates_issue
    | |- propagates _ => apply propagates_quiet; quiet_tac
    end).

Ltac calls_tac :=
  repeat (intros;
    lazymatch goal with
    | |- calls _ (mbind _ _) => eapply calls_bind
    | |- calls _ (await _) => eapply calls_await
    | |- calls _ (prisma _ _ _) => apply calls_prisma
    | |- calls _ prisma_connect => apply calls_prisma_connect
    | |- calls _ (prisma_transaction _) => apply calls_prisma_transaction
    | |- calls _ (try_catch _ _) =>
        eapply calls_try_catch; [| intros; simpl; discriminate]
    | |- calls _ _ => apply calls_quiet; quiet_tac
    end).

Section ScriptFacts.
Context {DB : Type} `{!Orm DB} {engine : Engine}.

Lemma takes_turns_entry (which : runnable) :
  takes_turns (the_batch which) (entry (the_script which)).
Proof.
  destruct which; simpl.
  - unfold queries_main. turns_tac.
  - unfold example_queries_main, example_create, example_read, example_update,
      example_delete, example_aggregation. turns_tac.
  - unfold verify, verify_connection, verify_tables, verify_show. turns_tac.
  - unfold runAllExamples. turns_tac.
Qed.

Lemma propagates_queries_main : propagates queries_main.
Proof. unfold queries_main. propagates_tac. Qed.

Lemma propagates_example_queries_main : propagates example_queries_main.
Proof.
  unfold example_queries_main, example_create, example_read, example_update,
    example_delete, example_aggregation. propagates_tac.
Qed.

Lemma propagates_runAllExamples : propagates runAllExamples.
Proof. unfold runAllExamples. propagates_tac. Qed.

Lemma propagates_verify_show : propagates verify_show.
Proof. unfold verify_show. propagates_tac. Qed.

Lemma calls_entry (which : runnable) :
  calls (called_on_success which) (entry (the_script which)).
Proof.
  destruct which; simpl.
  - unfold queries_main. eapply calls_eq; [calls_tac | reflexivity].
  - unfold example_queries_main, example_create, example_read, example_update,
      example_delete, example_aggregation.
    eapply calls_eq; [calls_tac | reflexivity].
  - unfold verify, verify_connection, verify_tables, verify_show.
    eapply calls_eq; [calls_tac | reflexivity].
  - unfold runAllExamples. eapply calls_eq; [calls_tac | reflexivity].
Qed.
End ScriptFacts.

(** ** Client configuration *)

(** C6, as stated, fails for the verification script when [DATABASE_URL] is
    unset: the client is constructed with the empty string, which is not
    the (absent) value of the variable. *)
Lemma verify_accelerateUrl_not_environment :
  dotenv_config ∅ ∅ !! "DATABASE_URL"%string = None /\
  clients_constructed (events (snd (node verify_ts ∅ ∅ ([] : list settlement) 0)))
    = [{| accelerateUrl := Some ""%string |}].
Proof. vm_compute. auto. Qed.

(** ** Whole runs *)

Section Runs.
Context {DB : Type} `{!Orm DB} {engine : Engine}.
Implicit Types w : world DB.

Lemma node_events (s : script DB) env dotfile db now :
  events (snd (node s env dotfile db now)) =
  events (snd (run_module s (dotenv_config env dotfile) (initial db now))).
Proof.
  unfold node.
  destruct (run_module s (dotenv_config env dotfile) (initial db now))
    as [[[v|e]|v|e|n] w]; reflexivity.
Qed.


Lemma grows_handlers (which : runnable) :
  (forall e, grows (onRejected (the_script which) e)) /\
  grows (onFinally (the_script which)).
Proof. destruct which; simpl; split; grows_tac. Qed.

Lemma takes_turns_handlers (which : runnable) batch :
  (forall e, takes_turns batch (onRejected (the_script which) e)) /\
  takes_turns batch (onFinally (the_script which)).
Proof. destruct which; simpl; split; turns_tac. Qed.

Lemma takes_turns_run_module (which : runnable) process_env :
  takes_turns (the_batch which) (run_module (the_script which) process_env).
Proof.
  destruct (takes_turns_handlers which (the_batch which)) as [Hr Hf].
  unfold run_module.
  apply takes_turns_bind; [apply takes_turns_new_PrismaClient | intros _].
  apply takes_turns_bind; [apply takes_turns_call_async, takes_turns_entry | intros p].
  apply takes_turns_bind; [apply takes_turns_promise_catch, Hr | intros q].
  apply takes_turns_promise_finally, Hf.
Qed.

(** C4, amended.  In [queries.ts], [example-queries.ts] and the
    verification script every client call is awaited to completion before
    the next call begins, in every run.  In the advanced examples the same
    holds for every call but the two operations of the [$transaction]
    batch: [update] and [create] are called one after the other without
    [await] and passed to the one [$transaction] call, which is awaited to
    completion before the next call begins. *)
Theorem calls_awaited_in_turn (which : runnable) env dotfile db now :
  in_turn (the_batch which)
    (events (snd (node (the_script which) env dotfile db now))).
Proof.
  rewrite node_events.
  destruct (takes_turns_run_module which (dotenv_config env dotfile) (initial db now))
    as (evs & He & Ht).
  rewrite He. exact Ht.
Qed.
End Runs.

(** C4, as stated, fails in the advanced examples: at the transaction
    step [create] is called right after [update], which has not been
    awaited, and [$transaction] right after [create]. *)
Lemma advanced_examples_calls_not_awaited :
  let evs := events (snd (node advanced_examples_ts ∅ ∅ ([] : list settlement) 0)) in
  ~ in_turn None evs /\
  back_to_back evs = [("update", "create"); ("create", "$transaction")]%string.
Proof.
  split; [| vm_compute; reflexivity].
  intros H. apply in_turn_awaited_each in H. vm_compute in H. discriminate.
Qed.

(** ** Error handling inside the main functions *)

Section ErrorHandling.
Context {DB : Type} `{!Orm DB} {engine : Engine}.
Implicit Types w : world DB.

Lemma propagated_error {A} (c : M DB A) w r e :
  propagates c -> failures (events w) = [] ->
  In (Settled r (Rejected e)) (events (snd (c w))) ->
  fst (c w) = Throw e /\ last (events (snd (c w))) = Some (Settled r (Rejected e)).
Proof.
  intros Hc Hf Hin. specialize (Hc w Hf). pose proof (in_failures _ _ _ Hin) as Hin'.
  destruct (fst (c w)) as [a|v|e'|n]; try (rewrite Hc in Hin'; contradiction).
  destruct Hc as [Hc | (evs & r' & Hev & Hnone)]; [rewrite Hc in Hin'; contradiction |].
  rewrite Hev in *. apply in_app_or in Hin. destruct Hin as [Hin | [Heq | []]].
  - apply in_failures in Hin. rewrite Hnone in Hin. contradiction.
  - inversion Heq; subst. split; [reflexivity | apply last_snoc].
Qed.

(** When both checks of the verification script pass, what remains of it
    is the listing of all data, started without any failure so far. *)
Lemma verify_checks_pass w :
  check_fails (database w) = false -> failures (events w) = [] ->
  exists w3, failures (events w3) = [] /\
    verify w =
    (verify_show;;
     console_log [Val (VStr (nl +:+ "=== ALL VERIFICATIONS PASSED ✓ ==="))];;
     console_log [Val (VStr (nl +:+ "Prisma Studio: http://localhost:51212"))]) w3.
Proof.
  intros Hcheck Hf. unfold check_fails in Hcheck.
  destruct (orm_exec Connect (database w)) as [[v1|e1] db1] eqn:E1; [| discriminate].
  destruct (orm_exec (Query User Count VUndefined) db1) as [[v2|e2] db2] eqn:E2;
    [| discriminate].
  destruct (orm_exec (Query Post Count VUndefined) db2) as [[v3|e3] db3] eqn:E3;
    [| discriminate].
  unfold verify. remember verify_show as show.
  unfold verify_connection, verify_tables, try_catch, await, prisma_connect,
    prisma, settle, issue, console_log, return_, mbind, M_bind.
  simpl. rewrite E1. simpl. rewrite E2. simpl. rewrite E3. simpl.
  eexists. split; [| reflexivity].
  simpl. rewrite !failures_app, Hf. reflexivity.
Qed.

(** C5, amended.  [queries.ts], [example-queries.ts] and the advanced
    examples have no local recovery: an ORM error raised inside the main
    function ends it at once (nothing is retried, no further call is made)
    and is thrown on to the script's top-level handler.  The verification
    script guards [$connect] and the two counts with its own try/catch;
    once those checks pass, it behaves the same way. *)
Theorem errors_reach_top_level (which : runnable) w r e :
  (which = verification -> check_fails (database w) = false) ->
  failures (events w) = [] ->
  In (Settled r (Rejected e)) (events (snd (entry (the_script which) w))) ->
  fst (entry (the_script which) w) = Throw e /\
  last (events (snd (entry (the_script which) w))) = Some (Settled r (Rejected e)).
Proof.
  intros Hcheck Hf. destruct which; simpl entry.
  - apply propagated_error; [apply propagates_queries_main | exact Hf].
  - apply propagated_error; [apply propagates_example_queries_main | exact Hf].
  - destruct (verify_checks_pass w (Hcheck eq_refl) Hf) as (w3 & Hf3 & ->).
    apply propagated_error; [| exact Hf3].
    apply propagates_bind; [apply propagates_verify_show | intros _].
    apply propagates_quiet. quiet_tac.
  - apply propagated_error; [apply propagates_runAllExamples | exact Hf].
Qed.

(** C9.  When the connection test or one of the two table counts is
    rejected, [verify] returns at once: it completes by [return] (nothing
    is thrown), the rejected check is the last thing it asked of the
    client, and [findMany] is never called. *)
Theorem verify_returns_early w :
  check_fails (database w) = true ->
  fst (verify w) = Return VUndefined /\
  exists evs r e,
    events (snd (verify w)) = events w ++ evs ++ [Settled r (Rejected e)] /\
    failures evs = [] /\
    invokes "findMany" (evs ++ [Settled r (Rejected e)]) = false.
Proof.
  intros Hcheck. unfold check_fails in Hcheck.
  unfold verify. remember verify_show as show.
  unfold verify_connection, verify_tables, try_catch, await, prisma_connect,
    prisma, settle, issue, console_log, return_, mbind, M_bind.
  simpl.
  destruct (orm_exec Connect (database w)) as [[v1|e1] db1] eqn:E1; simpl.
  - destruct (orm_exec (Query User Count VUndefined) db1) as [[v2|e2] db2] eqn:E2; simpl.
    + destruct (orm_exec (Query Post Count VUndefined) db2) as [[v3|e3] db3] eqn:E3;
        [discriminate |]. simpl.
      split; [reflexivity |].
      eexists [_; _; _; _; _], _, e3. rewrite <- !app_assoc. simpl.
      split; [reflexivity | split; reflexivity].
    + split; [reflexivity |].
      eexists [_; _; _], _, e2. rewrite <- !app_assoc. simpl.
      split; [reflexivity | split; reflexivity].
  - split; [reflexivity |].
    eexists [_], _, e1. rewrite <- !app_assoc. simpl.
    split; [reflexivity | split; reflexivity].
Qed.
End ErrorHandling.

Lemma verify_returns_early_witness :
  check_fails (database (initial [Rejected boom] 0)) = true /\
  fst (verify (initial [Rejected boom] 0)) = Return VUndefined /\
  exists evs r e,
    events (snd (verify (initial [Rejected boom] 0))) =
      events (initial [Rejected boom] 0) ++ evs ++ [Settled r (Rejected e)] /\
    failures evs = [] /\
    invokes "findMany" (evs ++ [Settled r (Rejected e)]) = false.
Proof.
  split; [reflexivity |].
  apply (verify_returns_early (initial [Rejected boom] 0)). reflexivity.
Defined.

Lemma errors_reach_top_level_witness :
  let w := initial [Fulfilled VUndefined; Fulfilled (VNum 2); Fulfilled (VNum 3);
                    Rejected boom] 0 in
  let r := Query User FindMany
             (VObj [("include"%string, VObj [("posts"%string, VBool true)])]) in
  fst (entry (the_script verification) w) = Throw boom /\
  last (events (snd (entry (the_script verification) w))) = Some (Settled r (Rejected boom)).
Proof.
  intros w r. apply (errors_reach_top_level verification w r boom).
  - intros _. reflexivity.
  - reflexivity.
  - vm_compute. do 7 right. left. reflexivity.
Defined.

(** C5, as stated, fails for the verification script: a rejected
    [$connect] is caught by the inner try/catch, [verify] returns normally
    and the top-level handler never sees the error. *)
Lemma verify_recovers_locally :
  let res := node verify_ts ∅ ∅ [Rejected boom] 0 in
  failures (events (snd res)) = [boom] /\
  fst (verify (started verify_ts ∅ ∅ [Rejected boom] 0)) = Return VUndefined /\
  stderr (snd res) = [] /\ fst res = 0%Z.
Proof. vm_compute. auto. Qed.

(** ** The top-level handler *)

Section TopLevel.
Context {DB : Type} `{!Orm DB} {engine : Engine}.

(** C1, amended.  In every script an error that rejects the main function
    is caught by the one [.catch] handler of the module, which prints it
    with [console.error].  In [queries.ts] and [example-queries.ts] the
    handler then ends the process with status 1. *)
Theorem top_level_handler (which : runnable) env dotfile db now e :
  fst (entry (the_script which) (started (the_script which) env dotfile db now)) = Throw e ->
  let res := node (the_script which) env dotfile db now in
  (exists line, In line (stderr (snd res)) /\ In (Val e) line) /\
  match which with
  | queries | example_queries => fst res = 1%Z
  | verification | advanced_examples => True
  end.
Proof.
  intros Hthrow res. subst res.
  unfold node, run_module, mbind, M_bind, new_PrismaClient, call_async.
  fold (started (the_script which) env dotfile db now).
  destruct (entry (the_script which) (started (the_script which) env dotfile db now))
    as [c w2]. simpl in Hthrow. subst c.
  destruct which; simpl.
  - split; [| reflexivity]. exists [Val e]. rewrite in_app_iff. simpl. auto.
  - split; [| reflexivity]. exists [Val (VStr "Error:"); Val e].
    rewrite in_app_iff. simpl. auto.
  - unfold promise_finally, call_async, await, prisma_disconnect, issue, settle,
      mbind, M_bind, mret, M_ret. simpl.
    destruct (orm_exec Disconnect (database w2)) as [[v|e'] db']; simpl.
    + split; [exists [Val e]; rewrite in_app_iff; simpl; auto | exact I].
    + split; [exists [Val e]; rewrite !in_app_iff; simpl; auto | exact I].
  - unfold promise_finally, call_async, await, prisma_disconnect, issue, settle,
      mbind, M_bind, mret, M_ret. simpl.
    destruct (orm_exec Disconnect (database w2)) as [[v|e'] db']; simpl.
    + split; [exists [Val e]; rewrite in_app_iff; simpl; auto | exact I].
    + split; [exists [Val e]; rewrite !in_app_iff; simpl; auto | exact I].
Qed.
End TopLevel.

Lemma top_level_handler_witness :
  fst (entry (the_script queries) (started (the_script queries) ∅ ∅ [Rejected boom] 0))
    = Throw boom /\
  (exists line, In line (stderr (snd (node (the_script queries) ∅ ∅ [Rejected boom] 0))) /\
                In (Val boom) line) /\
  fst (node (the_script queries) ∅ ∅ [Rejected boom] 0) = 1%Z.
Proof.
  split; [reflexivity |].
  apply (top_level_handler queries ∅ ∅ [Rejected boom] 0%Z boom). reflexivity.
Defined.

(** C1, as stated, fails for the advanced examples (and likewise for the
    verification script): the first [findMany] is rejected, the handler
    prints the error, and the process still ends with status 0. *)
Lemma advanced_examples_exit_zero_on_error :
  let res := node advanced_examples_ts ∅ ∅ [Rejected boom] 0 in
  failures (events (snd res)) = [boom] /\
  stderr (snd res) = [[Val boom]] /\
  fst res = 0%Z.
Proof. vm_compute. auto. Qed.

(** ** What the scripts call and print *)

Section Output.
Context {DB : Type} `{!Orm DB} {engine : Engine}.
Implicit Types w : world DB.

Lemma log_then {A} line (rest : M DB A) :
  grows rest ->
  forall w, exists more, stdout (snd ((console_log line;; rest) w)) = stdout w ++ line :: more.
Proof.
  intros Hg w. unfold mbind, M_bind. simpl.
  match goal with |- context [rest ?w1] => destruct (Hg w1) as (evs & out & err & _ & Ho & _) end.
  exists out. rewrite Ho. simpl. rewrite <- app_assoc. reflexivity.
Qed.

Lemma banner_first (which : runnable) w :
  exists more, stdout (snd (entry (the_script which) w)) = stdout w ++ banner which :: more.
Proof.
  destruct which; simpl entry; simpl banner.
  - unfold queries_main. apply log_then. grows_tac.
  - unfold example_queries_main, example_create, example_read, example_update,
      example_delete, example_aggregation. apply log_then. grows_tac.
  - unfold verify, verify_connection, verify_tables, verify_show. apply log_then. grows_tac.
  - unfold runAllExamples. apply log_then. grows_tac.
Qed.


(** C2, amended.  A complete run of each main function calls exactly the
    client methods listed in [called_on_success]: [queries.ts] calls
    [create] and [findMany]; [example-queries.ts] calls [create],
    [findMany], [findUnique], [update], [delete] and [count]; the advanced
    examples call [findMany], [count], [upsert], [updateMany], [update],
    [create], [$transaction] and [groupBy].  Between them these three
    scripts call all of [create], [findMany], [update], [delete],
    [$transaction] and [groupBy], but no single script calls all six.  Each
    script prints to the console, starting with its banner. *)
Theorem methods_of_a_complete_run (which : runnable) w a :
  fst (entry (the_script which) w) = Normal a ->
  methods_invoked (events (snd (entry (the_script which) w)))
    = methods_invoked (events w) ++ called_on_success which /\
  forallb (mentions (called_on_success which)) crud_methods = false /\
  forallb (mentions (called_on_success queries ++ called_on_success example_queries ++
                     called_on_success advanced_examples)) crud_methods = true /\
  exists more, stdout (snd (entry (the_script which) w)) = stdout w ++ banner which :: more.
Proof.
  intros Hdone. split; [| split; [| split]].
  - apply calls_entry. eauto.
  - destruct which; reflexivity.
  - reflexivity.
  - apply banner_first.
Qed.
End Output.

Lemma methods_of_a_complete_run_witness :
  fst (entry (the_script queries) (initial ([] : list settlement) 0)) = Normal () /\
  methods_invoked (events (snd (entry (the_script queries) (initial ([] : list settlement) 0))))
    = ["create"; "create"; "findMany"; "findMany"]%string.
Proof.
  split; [reflexivity |].
  apply (methods_of_a_complete_run queries (initial ([] : list settlement) 0) ()).
  reflexivity.
Defined.

(** C2, as stated, fails already for [queries.ts]: a complete run calls
    [create] and [findMany] (and [$disconnect] on the way out), and none of
    [update], [delete], [$transaction] and [groupBy]. *)
Lemma queries_calls_create_and_findMany_only :
  let res := node queries_ts ∅ ∅ ([] : list settlement) 0 in
  fst res = 0%Z /\
  methods_invoked (events (snd res))
    = ["create"; "create"; "findMany"; "findMany"; "$disconnect"]%string /\
  invokes "update" (events (snd res)) = false /\
  invokes "delete" (events (snd res)) = false /\
  invokes "$transaction" (events (snd res)) = false /\
  invokes "groupBy" (events (snd res)) = false.
Proof. vm_compute. repeat split. Qed.

(** ** Releasing the client *)

Section Release.
Context {DB : Type} `{!Orm DB} {engine : Engine}.

(** What happens after the main function: [process.exit] in the handler of
    [queries.ts] and [example-queries.ts] ends the run on the spot; in
    every other case the [.finally] callback issues [$disconnect] and
    settles it. *)
Lemma after_main (which : runnable) env dotfile db now :
  let s := the_script which in
  let r := entry s (started s env dotfile db now) in
  let final := events (snd (node s env dotfile db now)) in
  match fst r, which with
  | Throw _, (queries | example_queries) => final = events (snd r)
  | Exit _, _ => final = events (snd r)
  | _, _ => exists st, final = events (snd r) ++ [Issued Disconnect; Settled Disconnect st]
  end.
Proof.
  intros s r final. subst s r final. rewrite node_events.
  unfold run_module, mbind, M_bind, new_PrismaClient, call_async.
  fold (started (the_script which) env dotfile db now).
  destruct (entry (the_script which) (started (the_script which) env dotfile db now))
    as [[a|v|e|n] w2];
    destruct which; simpl; try reflexivity;
    unfold promise_finally, call_async, await, prisma_disconnect, issue, settle,
      mbind, M_bind, mret, M_ret; simpl;
    destruct (orm_exec Disconnect (database w2)) as [[v'|e'] db']; simpl;
    rewrite <- app_assoc; eauto.
Qed.
End Release.

Section ErrorPaths.
Context {engine : Engine}.

(** C3.  On the error path of [queries.ts] and [example-queries.ts] the
    handler calls [process.exit(1)] before the [.finally] callback can
    run, so [$disconnect] is never called there; the verification script
    and the advanced examples, whose handler only prints, do call it once
    on their error path, and so does every script on its success path.  The
    client is constructed once in each of these runs. *)
Theorem disconnect_skipped_after_process_exit :
  let disconnects (res : Z * world (list settlement)) :=
    count_invocations "$disconnect" (events (snd res)) in
  let constructions (res : Z * world (list settlement)) :=
    length (clients_constructed (events (snd res))) in
  let count_fails := [Fulfilled VUndefined; Fulfilled (VNum 2); Fulfilled (VNum 3);
                      Rejected boom] in
  disconnects (node queries_ts ∅ ∅ [Rejected boom] 0) = 0 /\
  disconnects (node example_queries_ts ∅ ∅ [Rejected boom] 0) = 0 /\
  disconnects (node advanced_examples_ts ∅ ∅ [Rejected boom] 0) = 1 /\
  disconnects (node verify_ts ∅ ∅ count_fails 0) = 1 /\
  disconnects (node queries_ts ∅ ∅ [] 0) = 1 /\
  disconnects (node example_queries_ts ∅ ∅ [] 0) = 1 /\
  constructions (node queries_ts ∅ ∅ [Rejected boom] 0) = 1 /\
  constructions (node example_queries_ts ∅ ∅ [Rejected boom] 0) = 1.
Proof. vm_compute. repeat split. Qed.
End ErrorPaths.

(** ** The client is configured from the environment *)

Section Construction.
Context {DB : Type} `{!Orm DB} {engine : Engine}.

Lemma run_module_constructs (which : runnable) process_env (w : world DB) :
  exists more,
    events (snd (run_module (the_script which) process_env w)) =
    events w ++ Constructed (client_options (the_script which) process_env) :: more.
Proof.
  destruct (grows_handlers which) as [Hr Hf].
  assert (Hrest : grows (p ← call_async (entry (the_script which));
                         q ← promise_catch p (onRejected (the_script which));
                         promise_finally q (onFinally (the_script which)))).
  { grows_tac; auto. apply grows_entry. }
  unfold run_module. rewrite run_bind. unfold new_PrismaClient. cbv beta iota.
  match goal with |- context [mbind _ _ ?w1] =>
    destruct (Hrest w1) as (evs & out & err & He & _ & _) end.
  exists evs. rewrite He. simpl. rewrite <- app_assoc. reflexivity.
Qed.

(** C6, amended.  Every script configures its client from [DATABASE_URL]:
    whenever the variable is set in the process environment (by the
    caller or by the [.env] file), the first thing a run does is to
    construct the client with that value as [accelerateUrl]. *)
Theorem accelerateUrl_from_environment (which : runnable) env dotfile db now url :
  dotenv_config env dotfile !! "DATABASE_URL"%string = Some url ->
  exists more,
    events (snd (node (the_script which) env dotfile db now)) =
    Constructed {| accelerateUrl := Some url |} :: more.
Proof.
  intros Hurl. rewrite node_events.
  destruct (run_module_constructs which (dotenv_config env dotfile) (initial db now))
    as [more Hev].
  exists more. rewrite Hev. simpl. f_equal. f_equal.
  destruct which; simpl; rewrite Hurl; try reflexivity.
  destruct (String.eqb_spec url ""); simpl; congruence.
Qed.
End Construction.

Lemma accelerateUrl_from_environment_witness :
  dotenv_config ∅ {["DATABASE_URL"%string := "prisma://accelerate"%string]}
    !! "DATABASE_URL"%string = Some "prisma://accelerate"%string /\
  exists more,
    events (snd (node (the_script verification) ∅
                   {["DATABASE_URL"%string := "prisma://accelerate"%string]}
                   ([] : list settlement) 0)) =
    Constructed {| accelerateUrl := Some "prisma://accelerate"%string |} :: more.
Proof.
  split; [reflexivity |].
  apply (accelerateUrl_from_environment verification). reflexivity.
Defined.

(** ** The CRUD round trip *)

Section Walk.
Context {DB : Type} `{!Orm DB} {engine : Engine}.

(** Up to its delete step the walk-through makes its six requests in
    order and throws the error of the first one that is rejected. *)
Lemma through_delete_run (w : world DB) :
  fst (example_through_delete w) =
    match fst (first_refusal walk_through_requests (database w)) with
    | None => Normal ()
    | Some e => Throw e
    end /\
  database (snd (example_through_delete w)) =
    snd (first_refusal walk_through_requests (database w)).
Proof.
  unfold example_through_delete, example_create, example_read, example_update,
    example_delete, await, prisma, issue, settle, console_log, mbind, M_bind.
  simpl.
  repeat (match goal with
          | |- context [orm_exec ?r ?d] =>
              destruct (orm_exec r d) as [[?|?] ?]; simpl; auto
          end).
Qed.

(** The delete step is a step of the script: the main function is the
    walk-through up to it, followed by the statistics. *)
Lemma example_queries_main_split (w : world DB) :
  example_queries_main w = (example_through_delete;; example_aggregation) w.
Proof.
  unfold example_queries_main, example_through_delete, mbind, M_bind.
  destruct (console_log _ w) as [[[]|?|?|?] w0]; try reflexivity.
  destruct (example_create w0) as [[[]|?|?|?] w1]; try reflexivity.
  destruct (example_read w1) as [[[]|?|?|?] w2]; try reflexivity.
  destruct (example_update w2) as [[[]|?|?|?] w3]; reflexivity.
Qed.
End Walk.

Lemma restricted_walk db :
  users db !! charlie = None -> onDelete db = Restrict ->
  exists e db',
    first_refusal walk_through_requests db = (Some e, db') /\
    user_name <$> users db' !! charlie = Some (Some "Charles"%string).
Proof.
  intros Hnone Hrestrict.
  assert (Hwalk : first_refusal walk_through_requests db =
    match create_user charlie (Some "Charlie"%string)
            [("Charlie introduction"%string, Some "Hi everyone!"%string, true)] db with
    | (Fulfilled _, db1) =>
        match update_user charlie (Some (Some "Charles"%string)) db1 with
        | (Fulfilled _, db2) =>
            match delete_user charlie db2 with
            | (Fulfilled _, db3) => (None, db3)
            | (Rejected e, db3) => (Some e, db3)
            end
        | (Rejected e, db2) => (Some e, db2)
        end
    | (Rejected e, db1) => (Some e, db1)
    end) by reflexivity.
  rewrite Hwalk. clear Hwalk.
  unfold create_user. rewrite Hnone. simpl.
  unfold update_user. simpl. rewrite lookup_insert_eq. simpl.
  unfold delete_user. simpl. rewrite lookup_insert_eq. simpl. rewrite Hrestrict.
  match goal with |- context [posts_of ?d ?u] =>
    assert (Hin : {| post_id := next_post_id db; post_title := "Charlie introduction";
                     post_content := Some "Hi everyone!"%string; post_published := true;
                     post_createdAt := today db; post_authorId := next_user_id db |}
                  ∈ posts_of d u);
    [| destruct (posts_of d u) as [|p ps] ] end.
  - unfold posts_of. apply list_elem_of_filter. split; [reflexivity |].
    unfold all_posts. apply list_elem_of_fmap.
    eexists (next_post_id db, _). split; [reflexivity |].
    apply elem_of_map_to_list. simpl. apply lookup_insert_eq.
  - inversion Hin.
  - eexists _, _. split; [reflexivity |]. simpl. rewrite lookup_insert_eq. reflexivity.
Qed.

(** C10.  The walk-through creates the user [charlie@prisma.io] together
    with a post and later deletes the user by that email, never the post.
    On a database without that user, under the schema shown in the guides
    (the relation of a post to its author has no [onDelete] action), the
    delete step is refused: the main function throws there and the renamed
    user stays behind, so the set of users is not the one the run found. *)
Theorem walk_through_delete_refused (w : world store) :
  users (database w) !! charlie = None ->
  onDelete (database w) = Restrict ->
  (exists e, fst (example_queries_main w) = Throw e) /\
  user_name <$> users (database (snd (example_queries_main w))) !! charlie
    = Some (Some "Charles"%string) /\
  users (database (snd (example_queries_main w))) <> users (database w).
Proof.
  intros Hnone Hrestrict.
  destruct (restricted_walk (database w) Hnone Hrestrict) as (e & db' & Hwalk & Hstays).
  destruct (through_delete_run w) as [Hfst Hdb]. rewrite Hwalk in Hfst, Hdb. simpl in Hfst, Hdb.
  assert (Hmain : example_queries_main w = example_through_delete w).
  { rewrite example_queries_main_split. unfold mbind, M_bind.
    destruct (example_through_delete w) as [[[]|?|?|?] w']; simpl in Hfst;
      first [discriminate | reflexivity]. }
  rewrite Hmain, Hfst, Hdb. split; [eauto |]. split; [exact Hstays |].
  intros Heq. rewrite Heq, Hnone in Hstays. discriminate.
Qed.

Lemma walk_through_delete_refused_witness :
  let w := initial (empty_store Restrict) 0 in
  users (database w) !! charlie = None /\
  (exists e, fst (example_queries_main w) = Throw e) /\
  user_name <$> users (database (snd (example_queries_main w))) !! charlie
    = Some (Some "Charles"%string) /\
  users (database (snd (example_queries_main w))) <> users (database w).
Proof.
  intros w. split; [reflexivity |].
  apply (walk_through_delete_refused w); reflexivity.
Defined.

(** * Further properties of the scripts *)

(** ** Rules for the shape of a run *)

Section ShapeRules.
Context {DB : Type} `{!Orm DB} {engine : Engine}.
Implicit Types w : world DB.

Lemma follows_eq {A} ms ms' (c : M DB A) : follows ms c -> ms = ms' -> follows ms' c.
Proof. intros Hc <-. exact Hc. Qed.

Lemma follows_still {A} (c : M DB A) :
  (forall w, events (snd (c w)) = events w /\ stderr (snd (c w)) = stderr w /\
             forall n, fst (c w) <> Exit n) ->
  follows [] c.
Proof.
  intros H w. destruct (H w) as (He & Hr & Hx). exists [].
  rewrite app_nil_r. repeat split; auto. exists []. reflexivity.
Qed.

Lemma follows_ret {A} (a : A) : follows [] (mret a : M DB A).
Proof. apply follows_still. intros w. repeat split; intros; discriminate. Qed.

Lemma follows_console_log args : follows [] (console_log args : M DB ()).
Proof. apply follows_still. intros w. repeat split; intros; discriminate. Qed.

Lemma follows_throw {A} e : follows [] (throw e : M DB A).
Proof. apply follows_still. intros w. repeat split; intros; discriminate. Qed.

Lemma follows_return {A} v : follows [] (return_ v : M DB A).
Proof. apply follows_still. intros w. repeat split; intros; discriminate. Qed.

Lemma follows_date_now : follows [] (date_now : M DB Z).
Proof. apply follows_still. intros w. repeat split; intros; discriminate. Qed.

Lemma follows_get v k : follows [] (get v k : M DB value).
Proof. apply follows_still. intros w. destruct v; repeat split; intros; discriminate. Qed.

Lemma follows_index v i : follows [] (index v i : M DB value).
Proof. apply follows_still. intros w. destruct v; repeat split; intros; discriminate. Qed.

Lemma follows_if {A} ms (b : bool) (c1 c2 : M DB A) :
  follows ms c1 -> follows ms c2 -> follows ms (if b then c1 else c2).
Proof. destruct b; auto. Qed.

Lemma follows_bind {A B} ms1 ms2 (c : M DB A) (k : A -> M DB B) :
  follows ms1 c -> (forall a, follows ms2 (k a)) -> follows (ms1 ++ ms2) (c ≫= k).
Proof.
  intros Hc Hk w. rewrite run_bind.
  destruct (Hc w) as (evs1 & He1 & Hr1 & Hb1 & Hx1 & [rest1 Hp1] & Hn1).
  destruct (c w) as [[a|v|e|n] w1]; simpl in *.
  - destruct (Hk a w1) as (evs2 & He2 & Hr2 & Hb2 & Hx2 & [rest2 Hp2] & Hn2).
    exists (evs1 ++ evs2). rewrite He2, He1, Hr2, Hr1, forallb_app, Hb1, Hb2.
    rewrite methods_invoked_app, (Hn1 (ex_intro _ a eq_refl)), app_assoc.
    repeat split; auto.
    + exists rest2. rewrite Hp2 at 1. apply app_assoc.
    + intros Hdone. rewrite (Hn2 Hdone). reflexivity.
  - exists evs1. repeat split; auto; try discriminate.
    + exists (rest1 ++ ms2). rewrite Hp1 at 1. symmetry. apply app_assoc.
    + intros [? ?]. discriminate.
  - exists evs1. repeat split; auto; try discriminate.
    + exists (rest1 ++ ms2). rewrite Hp1 at 1. symmetry. apply app_assoc.
    + intros [? ?]. discriminate.
  - exfalso. exact (Hx1 n eq_refl).
Qed.

Lemma follows_bind_nil {A B} (c : M DB A) (k : A -> M DB B) :
  follows [] c -> (forall a, follows [] (k a)) -> follows [] (c ≫= k).
Proof. intros Hc Hk. exact (follows_bind [] [] c k Hc Hk). Qed.

Lemma follows_each xs (body : value -> M DB ()) :
  (forall x, follows [] (body x)) -> follows [] (each xs body).
Proof.
  intros Hb. induction xs as [|x xs IH]; simpl.
  - apply follows_ret.
  - apply follows_bind_nil; auto.
Qed.

Lemma follows_for_of v (body : value -> M DB ()) :
  (forall x, follows [] (body x)) -> follows [] (for_of v body).
Proof.
  intros Hb. destruct v; simpl; first [apply follows_each; assumption | apply follows_throw].
Qed.

Lemma follows_forEach v (callback : value -> M DB ()) :
  (forall x, follows [] (callback x)) -> follows [] (forEach v callback).
Proof.
  intros Hb. destruct v; simpl; first [apply follows_each; assumption | apply follows_throw].
Qed.

(** A call that is awaited on the spot. *)
Lemma follows_await_issue r :
  body_event (Issued r) = true -> (forall s, body_event (Settled r s) = true) ->
  follows [method_name r] (await (issue r)).
Proof.
  intros Hi Hs w. unfold await. rewrite run_bind. simpl. unfold settle. simpl.
  destruct (orm_exec r (database w)) as [s db] eqn:E.
  exists [Issued r; Settled r s].
  assert (Hev : forallb body_event [Issued r; Settled r s] = true).
  { change (body_event (Issued r) && (body_event (Settled r s) && true) = true).
    rewrite Hi, Hs. reflexivity. }
  destruct s; simpl fst; simpl snd; simpl events; simpl stderr; rewrite <- app_assoc;
    (split; [reflexivity | split; [reflexivity | split; [exact Hev | split;
      [intros; discriminate | split; [exists []; reflexivity | reflexivity]]]]]).
Qed.

Lemma follows_await_prisma m op args :
  follows [operation_name op] (await (prisma m op args)).
Proof. apply (follows_await_issue (Query m op args)); reflexivity. Qed.

Lemma follows_await_connect : follows ["$connect"%string] (await prisma_connect).
Proof. apply (follows_await_issue Connect); reflexivity. Qed.

(** The batch form of [$transaction] with two operations. *)
Lemma follows_transaction m1 op1 args1 m2 op2 args2 :
  follows [operation_name op1; operation_name op2; "$transaction"%string]
    (await (p1 ← prisma m1 op1 args1; p2 ← prisma m2 op2 args2;
            prisma_transaction [p1; p2])).
Proof.
  intros w. unfold await, prisma, prisma_transaction. rewrite !run_bind. simpl.
  unfold settle. simpl.
  destruct (orm_exec (Transaction [Query m1 op1 args1; Query m2 op2 args2]) (database w))
    as [s db] eqn:E.
  exists [Issued (Query m1 op1 args1); Issued (Query m2 op2 args2);
          Issued (Transaction [Query m1 op1 args1; Query m2 op2 args2]);
          Settled (Transaction [Query m1 op1 args1; Query m2 op2 args2]) s].
  destruct s; simpl; rewrite <- !app_assoc; simpl;
    (split; [reflexivity | split; [reflexivity | split; [reflexivity | split;
      [intros; discriminate | split; [exists []; reflexivity | reflexivity]]]]]).
Qed.

(** A handler that calls nothing and never completes normally. *)
Lemma follows_try_catch {A} ms (body : M DB A) (handler : value -> M DB A) :
  follows ms body -> (forall e, follows [] (handler e)) ->
  (forall e w a, fst (handler e w) <> Normal a) ->
  follows ms (try_catch body handler).
Proof.
  intros Hb Hh Hnever w. unfold try_catch.
  destruct (Hb w) as (evs1 & He1 & Hr1 & Hb1 & Hx1 & [rest1 Hp1] & Hn1).
  destruct (body w) as [[a|v|e|n] w1]; simpl in *;
    try (exists evs1; repeat split; auto; exists rest1; exact Hp1).
  destruct (Hh e w1) as (evs2 & He2 & Hr2 & Hb2 & Hx2 & [rest2 Hp2] & Hn2).
  symmetry in Hp2. apply app_eq_nil in Hp2. destruct Hp2 as [Hm2 _].
  exists (evs1 ++ evs2). rewrite He2, He1, Hr2, Hr1, forallb_app, Hb1, Hb2.
  rewrite methods_invoked_app, Hm2, app_nil_r, app_assoc.
  repeat split; auto.
  - exists rest1. exact Hp1.
  - intros [a Ha]. exfalso. exact (Hnever e w1 a Ha).
Qed.
End ShapeRules.

(** Decomposes a goal [follows ms c] along the structure of [c]. *)
Ltac follows_tac :=
  repeat (intros;
    lazymatch goal with
    | |- follows [] (mbind _ _) => apply follows_bind_nil
    | |- follows _ (mbind _ _) => eapply follows_bind
    | |- follows _ (await (mbind _ _)) => apply follows_transaction
    | |- follows _ (await prisma_connect) => apply follows_await_connect
    | |- follows _ (await (prisma _ _ _)) => apply follows_await_prisma
    | |- follows _ (try_catch _ _) =>
        eapply follows_try_catch; [| | intros; simpl; discriminate]
    | |- follows _ (mret _) => apply follows_ret
    | |- follows _ (console_log _) => apply follows_console_log
    | |- follows _ (throw _) => apply follows_throw
    | |- follows _ (return_ _) => apply follows_return
    | |- follows _ date_now => apply follows_date_now
    | |- follows _ (get _ _) => apply follows_get
    | |- follows _ (index _ _) => apply follows_index
    | |- follows _ (if _ then _ else _) => apply follows_if
    | |- follows _ (for_of _ _) => apply follows_for_of
    | |- follows _ (forEach _ _) => apply follows_forEach
    | |- follows _ (each _ _) => apply follows_each
    end).

Section Shape.
Context {DB : Type} `{!Orm DB} {engine : Engine}.
Implicit Types w : world DB.

Lemma follows_entry (which : runnable) :
  follows (called_on_success which) (entry (the_script which)).
Proof.
  destruct which; simpl.
  - unfold queries_main. eapply follows_eq; [follows_tac | reflexivity].
  - unfold example_queries_main, example_create, example_read, example_update,
      example_delete, example_aggregation.
    eapply follows_eq; [follows_tac | reflexivity].
  - unfold verify, verify_connection, verify_tables, verify_show.
    eapply follows_eq; [follows_tac | reflexivity].
  - unfold runAllExamples. eapply follows_eq; [follows_tac | reflexivity].
Qed.
End Shape.

(** ** Every run, whatever the ORM answers *)

Lemma mentions_in ms m : In m ms -> mentions ms m = true.
Proof.
  intros Hin. unfold mentions. apply existsb_exists.
  exists m. split; [exact Hin | apply String.eqb_refl].
Qed.

Lemma no_client_in_body evs : forallb body_event evs = true -> clients_constructed evs = [].
Proof.
  induction evs as [|ev evs IH]; [reflexivity |]. simpl forallb.
  intros Hb. apply andb_prop in Hb. destruct Hb as [Hev Hrest].
  unfold clients_constructed in *. simpl. rewrite (IH Hrest).
  destruct ev; [discriminate | reflexivity | reflexivity].
Qed.

Lemma last_body_event evs ev :
  forallb body_event evs = true -> last evs = Some ev -> body_event ev = true.
Proof.
  intros Hb Hlast. rewrite forallb_forall in Hb. apply Hb.
  destruct evs as [|x xs _] using rev_ind; [discriminate |].
  rewrite last_snoc in Hlast. injection Hlast as <-. apply in_or_app. right. left. reflexivity.
Qed.

Section WholeRuns.
Context {DB : Type} `{!Orm DB} {engine : Engine}.
Implicit Types w : world DB.

(** X1.  The calls of a main function come in one fixed order: on every
    run, complete or not, the methods called so far are a beginning of the
    list of a complete run. *)
Theorem calls_in_order (which : runnable) w :
  exists done rest,
    methods_invoked (events (snd (entry (the_script which) w)))
      = methods_invoked (events w) ++ done /\
    called_on_success which = done ++ rest.
Proof.
  destruct (follows_entry which w) as (evs & He & _ & _ & _ & [rest Hp] & _).
  exists (methods_invoked evs), rest. rewrite He, methods_invoked_app. auto.
Qed.

(** The main function as it runs under [node]: it starts right after the
    construction of the client, with nothing on stderr. *)
Lemma main_under_node (which : runnable) env dotfile db now :
  let s := the_script which in
  let r := entry s (started s env dotfile db now) in
  exists evs rest,
    events (snd r) = Constructed (client_options s (dotenv_config env dotfile)) :: evs /\
    stderr (snd r) = [] /\
    forallb body_event evs = true /\
    (forall n, fst r <> Exit n) /\
    called_on_success which = methods_invoked evs ++ rest.
Proof.
  intros s r.
  destruct (follows_entry which (started s env dotfile db now))
    as (evs & He & Hr & Hb & Hx & [rest Hp] & _).
  exists evs, rest. auto.
Qed.

(** What [node] makes of the outcome of the main function. *)
Lemma node_outcome (which : runnable) env dotfile db now :
  let s := the_script which in
  let r := entry s (started s env dotfile db now) in
  let res := node s env dotfile db now in
  match fst r, which with
  | Exit n, _ =>
      fst res = n /\ events (snd res) = events (snd r) /\ stderr (snd res) = stderr (snd r)
  | Throw e, (queries | example_queries) =>
      fst res = 1%Z /\ events (snd res) = events (snd r) /\
      exists line, stderr (snd res) = stderr (snd r) ++ [line]
  | Throw e, _ =>
      exists st,
        events (snd res) = events (snd r) ++ [Issued Disconnect; Settled Disconnect st] /\
        match st with
        | Fulfilled _ => fst res = 0%Z /\ stderr (snd res) = stderr (snd r) ++ [[Val e]]
        | Rejected e' =>
            fst res = 1%Z /\ stderr (snd res) = stderr (snd r) ++ [[Val e]; [Val e']]
        end
  | _, _ =>
      exists st,
        events (snd res) = events (snd r) ++ [Issued Disconnect; Settled Disconnect st] /\
        match st with
        | Fulfilled _ => fst res = 0%Z /\ stderr (snd res) = stderr (snd r)
        | Rejected e' => fst res = 1%Z /\ stderr (snd res) = stderr (snd r) ++ [[Val e']]
        end
  end.
Proof.
  intros s r res. subst s r res.
  unfold node, run_module, mbind, M_bind, new_PrismaClient, call_async.
  fold (started (the_script which) env dotfile db now).
  destruct (entry (the_script which) (started (the_script which) env dotfile db now))
    as [[a|v|e|n] w2];
    destruct which; simpl; eauto;
    unfold promise_finally, call_async, await, prisma_disconnect, issue, settle,
      mbind, M_bind, mret, M_ret; simpl;
    destruct (orm_exec Disconnect (database w2)) as [[v'|e'] db']; simpl;
    rewrite <- ?app_assoc; simpl;
    (eexists; split; [reflexivity | split; reflexivity]).
Qed.
End WholeRuns.

Section RunFacts.
Context {DB : Type} `{!Orm DB} {engine : Engine}.
Implicit Types w : world DB.

Lemma count_invocations_app name evs1 evs2 :
  count_invocations name (evs1 ++ evs2)
    = count_invocations name evs1 + count_invocations name evs2.
Proof.
  unfold count_invocations. rewrite methods_invoked_app, filter_app, length_app. reflexivity.
Qed.

Lemma main_never_disconnects (which : runnable) evs rest :
  called_on_success which = methods_invoked evs ++ rest ->
  count_invocations "$disconnect" evs = 0.
Proof.
  intros Hp. unfold count_invocations.
  assert (Hnone : length (filter (fun m => String.eqb "$disconnect" m = true)
                            (called_on_success which)) = 0)
    by (destruct which; reflexivity).
  rewrite Hp, filter_app, length_app in Hnone. lia.
Qed.

(** After the main function a run adds nothing, or [$disconnect] issued
    and settled. *)
Lemma node_events_tail (which : runnable) env dotfile db now :
  let s := the_script which in
  exists evs rest tail,
    events (snd (node s env dotfile db now)) =
      Constructed (client_options s (dotenv_config env dotfile)) :: evs ++ tail /\
    forallb body_event evs = true /\
    called_on_success which = methods_invoked evs ++ rest /\
    (tail = [] \/ exists st, tail = [Issued Disconnect; Settled Disconnect st]).
Proof.
  intros s. subst s.
  destruct (main_under_node which env dotfile db now) as (evs & rest & He & _ & Hb & Hx & Hp).
  pose proof (node_outcome which env dotfile db now) as Hout. simpl in Hout, He.
  exists evs, rest.
  destruct (fst (entry (the_script which) (started (the_script which) env dotfile db now)))
    as [a|v|e|n]; [| | | exfalso; exact (Hx n eq_refl)].
  - destruct which; destruct Hout as (st & Hev & _);
      exists [Issued Disconnect; Settled Disconnect st]; rewrite Hev, He;
      (split; [reflexivity | split; [exact Hb | split; [exact Hp | right; exists st; reflexivity]]]).
  - destruct which; destruct Hout as (st & Hev & _);
      exists [Issued Disconnect; Settled Disconnect st]; rewrite Hev, He;
      (split; [reflexivity | split; [exact Hb | split; [exact Hp | right; exists st; reflexivity]]]).
  - destruct which.
    + destruct Hout as (_ & Hev & _). exists []. rewrite Hev, He, app_nil_r. auto.
    + destruct Hout as (_ & Hev & _). exists []. rewrite Hev, He, app_nil_r. auto.
    + destruct Hout as (st & Hev & _);
      exists [Issued Disconnect; Settled Disconnect st]; rewrite Hev, He;
      (split; [reflexivity | split; [exact Hb | split; [exact Hp | right; exists st; reflexivity]]]).
    + destruct Hout as (st & Hev & _);
      exists [Issued Disconnect; Settled Disconnect st]; rewrite Hev, He;
      (split; [reflexivity | split; [exact Hb | split; [exact Hp | right; exists st; reflexivity]]]).
Qed.

Lemma constructed_in_run (which : runnable) env dotfile db now :
  clients_constructed (events (snd (node (the_script which) env dotfile db now)))
    = [client_options (the_script which) (dotenv_config env dotfile)].
Proof.
  destruct (node_events_tail which env dotfile db now)
    as (evs & rest & tail & -> & Hb & _ & Htail).
  change (clients_constructed (Constructed ?o :: ?l)) with (o :: clients_constructed l).
  unfold clients_constructed at 1. rewrite flat_map_app.
  fold (clients_constructed evs). rewrite (no_client_in_body evs Hb).
  destruct Htail as [-> | [st ->]]; reflexivity.
Qed.

(** C8.  The one client a run of the verification script constructs is
    always given a string as [accelerateUrl]: the value of [DATABASE_URL]
    when it is set, and the empty string when it is unset (or empty).  The
    one client a run of each of the other three scripts constructs is given
    [process.env.DATABASE_URL] as it is, so nothing at all when the variable
    is unset. *)
Theorem verify_accelerateUrl_defined (which : runnable) env dotfile db now :
  let DATABASE_URL := dotenv_config env dotfile !! "DATABASE_URL"%string in
  clients_constructed (events (snd (node (the_script which) env dotfile db now))) =
  [{| accelerateUrl :=
        match which with
        | verification => Some (default ""%string DATABASE_URL)
        | queries | example_queries | advanced_examples => DATABASE_URL
        end |}].
Proof.
  intros url. subst url. rewrite constructed_in_run.
  destruct which; simpl; try reflexivity.
  destruct (dotenv_config env dotfile !! "DATABASE_URL"%string) as [url|]; simpl;
    [| reflexivity].
  destruct (String.eqb_spec url ""); simpl; congruence.
Qed.







(** *** Results that are printed *)









End RunFacts.




Section Log.
Context {DB : Type} `{!Orm DB} {engine : Engine}.
Implicit Types w : world DB.


End Log.

Section RunProperties.
Context {DB : Type} `{!Orm DB} {engine : Engine}.
Implicit Types w : world DB.

(** X2.  On no run does a script call a client method outside its own
    list: the methods of its complete run and [$disconnect].  In
    particular the verification script only ever calls [$connect], [count],
    [findMany] and [$disconnect], and [queries.ts] only [create],
    [findMany] and [$disconnect]. *)
Theorem never_calls_other_methods (which : runnable) env dotfile db now :
  forallb (mentions (may_call which))
    (methods_invoked (events (snd (node (the_script which) env dotfile db now)))) = true.
Proof.
  destruct (node_events_tail which env dotfile db now)
    as (evs & rest & tail & -> & _ & Hp & Htail).
  change (methods_invoked (Constructed ?o :: ?l)) with (methods_invoked l).
  rewrite methods_invoked_app, forallb_app. apply andb_true_intro. split.
  - apply forallb_forall. intros m Hm. apply mentions_in. unfold may_call.
    rewrite Hp. apply in_or_app. left. apply in_or_app. left. exact Hm.
  - assert (Hd : mentions (may_call which) "$disconnect" = true).
    { apply mentions_in. unfold may_call. apply in_or_app. right. left. reflexivity. }
    destruct Htail as [-> | [st ->]]; [reflexivity |].
    simpl. rewrite Hd. reflexivity.
Qed.

(** X3.  [$disconnect] is called once on every run of the verification
    script and of the advanced examples, and on every run of [queries.ts]
    and [example-queries.ts] whose main function does not throw; when it
    throws there, it is not called at all.  It is never called twice. *)
Theorem disconnect_count (which : runnable) env dotfile db now :
  let s := the_script which in
  count_invocations "$disconnect" (events (snd (node s env dotfile db now))) =
  match fst (entry s (started s env dotfile db now)), which with
  | Throw _, (queries | example_queries) => 0
  | _, _ => 1
  end.
Proof.
  intros s. subst s.
  destruct (main_under_node which env dotfile db now) as (evs & rest & He & _ & Hb & Hx & Hp).
  pose proof (node_outcome which env dotfile db now) as Hout. simpl in Hout, He.
  pose proof (main_never_disconnects which evs rest Hp) as Hnone.
  assert (Hmain : count_invocations "$disconnect"
                    (events (snd (entry (the_script which)
                                    (started (the_script which) env dotfile db now)))) = 0).
  { rewrite He. exact Hnone. }
  destruct (fst (entry (the_script which) (started (the_script which) env dotfile db now)))
    as [a|v|e|n]; [| | | exfalso; exact (Hx n eq_refl)].
  - destruct which; destruct Hout as (st & -> & _);
      rewrite count_invocations_app, Hmain; reflexivity.
  - destruct which; destruct Hout as (st & -> & _);
      rewrite count_invocations_app, Hmain; reflexivity.
  - destruct which.
    + destruct Hout as (_ & -> & _). exact Hmain.
    + destruct Hout as (_ & -> & _). exact Hmain.
    + destruct Hout as (st & -> & _). rewrite count_invocations_app, Hmain. reflexivity.
    + destruct Hout as (st & -> & _). rewrite count_invocations_app, Hmain. reflexivity.
Qed.

(** X4.  Every run constructs the client exactly once, from the process
    environment, before anything else happens. *)
Theorem client_constructed_once (which : runnable) env dotfile db now :
  let s := the_script which in
  clients_constructed (events (snd (node s env dotfile db now)))
    = [client_options s (dotenv_config env dotfile)] /\
  head (events (snd (node s env dotfile db now)))
    = Some (Constructed (client_options s (dotenv_config env dotfile))).
Proof.
  intros s. subst s.
  destruct (node_events_tail which env dotfile db now)
    as (evs & rest & tail & -> & Hb & _ & Htail).
  split; [| reflexivity].
  change (clients_constructed (Constructed ?o :: ?l)) with (o :: clients_constructed l).
  unfold clients_constructed at 1. rewrite flat_map_app.
  fold (clients_constructed evs). rewrite (no_client_in_body evs Hb).
  destruct Htail as [-> | [st ->]]; reflexivity.
Qed.

(** X5.  The exit status of a run is 0 or 1, and it is 0 exactly when the
    last thing the run did with the client was a [$disconnect] that
    succeeded. *)
Theorem exit_status (which : runnable) env dotfile db now :
  let res := node (the_script which) env dotfile db now in
  (fst res = 0%Z \/ fst res = 1%Z) /\
  (fst res = 0%Z <->
   exists v, last (events (snd res)) = Some (Settled Disconnect (Fulfilled v))).
Proof.
  intros res. subst res.
  destruct (main_under_node which env dotfile db now) as (evs & rest & He & _ & Hb & Hx & Hp).
  pose proof (node_outcome which env dotfile db now) as Hout. simpl in Hout, He.
  assert (Hlast : forall v,
    last (events (snd (entry (the_script which)
                         (started (the_script which) env dotfile db now))))
      <> Some (Settled Disconnect (Fulfilled v))).
  { intros v. rewrite He. destruct evs as [|x xs _] using rev_ind; [discriminate |].
    change (Constructed ?o :: xs ++ [x]) with ((Constructed o :: xs) ++ [x]).
    rewrite last_snoc. intros [= ->].
    rewrite forallb_app in Hb. apply andb_prop in Hb. destruct Hb as [_ Hb]. discriminate. }
  assert (Hdone : forall st,
    (exists st', events (snd (node (the_script which) env dotfile db now)) =
       events (snd (entry (the_script which) (started (the_script which) env dotfile db now)))
         ++ [Issued Disconnect; Settled Disconnect st']
       /\ st' = st) ->
    (exists v, last (events (snd (node (the_script which) env dotfile db now)))
                 = Some (Settled Disconnect (Fulfilled v))) <->
    (exists v, st = Fulfilled v)).
  { intros st (st' & -> & ->).
    change [Issued Disconnect; Settled Disconnect st]
      with ([Issued Disconnect] ++ [Settled Disconnect st]).
    rewrite app_assoc, last_snoc. split; intros [v Hv]; exists v; congruence. }
  destruct (fst (entry (the_script which) (started (the_script which) env dotfile db now)))
    as [a|v|e|n]; [| | | exfalso; exact (Hx n eq_refl)].
  - assert (Hst : exists st, events (snd (node (the_script which) env dotfile db now)) =
        events (snd (entry (the_script which) (started (the_script which) env dotfile db now)))
          ++ [Issued Disconnect; Settled Disconnect st] /\
        fst (node (the_script which) env dotfile db now)
          = match st with Fulfilled _ => 0%Z | Rejected _ => 1%Z end).
    { destruct which; destruct Hout as (st & Hev & Hst); exists st; split; auto;
        destruct st; tauto. }
    destruct Hst as (st & Hev & ->). rewrite (Hdone st) by eauto.
    destruct st; split; auto; split; eauto; try discriminate; intros [? ?]; discriminate.
  - assert (Hst : exists st, events (snd (node (the_script which) env dotfile db now)) =
        events (snd (entry (the_script which) (started (the_script which) env dotfile db now)))
          ++ [Issued Disconnect; Settled Disconnect st] /\
        fst (node (the_script which) env dotfile db now)
          = match st with Fulfilled _ => 0%Z | Rejected _ => 1%Z end).
    { destruct which; destruct Hout as (st & Hev & Hst); exists st; split; auto;
        destruct st; tauto. }
    destruct Hst as (st & Hev & ->). rewrite (Hdone st) by eauto.
    destruct st; split; auto; split; eauto; try discriminate; intros [? ?]; discriminate.
  - assert (Hcases :
      (fst (node (the_script which) env dotfile db now) = 1%Z /\
       events (snd (node (the_script which) env dotfile db now)) =
         events (snd (entry (the_script which) (started (the_script which) env dotfile db now))))
      \/
      exists st, events (snd (node (the_script which) env dotfile db now)) =
        events (snd (entry (the_script which) (started (the_script which) env dotfile db now)))
          ++ [Issued Disconnect; Settled Disconnect st] /\
        fst (node (the_script which) env dotfile db now)
          = match st with Fulfilled _ => 0%Z | Rejected _ => 1%Z end).
    { destruct which.
      - left. tauto.
      - left. tauto.
      - right. destruct Hout as (st & Hev & Hst). exists st. split; auto. destruct st; tauto.
      - right. destruct Hout as (st & Hev & Hst). exists st. split; auto. destruct st; tauto. }
    destruct Hcases as [[Hone Hev] | (st & Hev & Hst)].
    + rewrite Hone, Hev. split; auto. split; [discriminate |].
      intros [v' Hv']. exfalso. exact (Hlast v' Hv').
    + rewrite Hst, (Hdone st) by eauto.
      destruct st; split; auto; split; eauto; try discriminate; intros [? ?]; discriminate.
Qed.

End RunProperties.



(** ** The listing of the verification script *)

Lemma flat_map_singleton {A B} (f : A -> B) (l : list A) :
  flat_map (fun x => [f x]) l = map f l.
Proof. induction l as [|x l IH]; simpl; [reflexivity | rewrite IH; reflexivity]. Qed.


Section Listing.
Context {DB : Type} `{!Orm DB} {engine : Engine}.
Implicit Types w : world DB.

Lemma print_nil w : print [] w = w.
Proof. destruct w. unfold print. simpl. rewrite app_nil_r. reflexivity. Qed.

Lemma print_print l1 l2 w : print l2 (print l1 w) = print (l1 ++ l2) w.
Proof. unfold print. simpl. rewrite app_assoc. reflexivity. Qed.

Lemma console_log_print args w : console_log args w = (Normal (), print [args] w).
Proof. reflexivity. Qed.

Lemma get_read v k w : nullish v = false -> get v k w = (Normal (read v k), w).
Proof. destruct v; simpl; intros; try discriminate; reflexivity. Qed.

Lemma get_nullish v k w :
  nullish v = true -> get v k w = (Throw (cannot_read v k), w).
Proof. destruct v; simpl; intros; try discriminate; reflexivity. Qed.

Lemma index_element v i w : nullish v = false -> index v i w = (Normal (element v i), w).
Proof. destruct v; simpl; intros; try discriminate; reflexivity. Qed.

Lemma for_of_items v xs (body : value -> M DB ()) :
  items v = Some xs -> for_of v body = each xs body.
Proof. destruct v; simpl; intros [= <-]; reflexivity. Qed.


(** A loop whose body prints the lines of each element. *)
Lemma each_prints (body : value -> M DB ()) (line : value -> list (list log_arg))
    (ok : value -> bool) xs :
  (forall x w, ok x = true -> body x w = (Normal (), print (line x) w)) ->
  forallb ok xs = true ->
  forall w, each xs body w = (Normal (), print (flat_map line xs) w).
Proof.
  intros Hbody. induction xs as [|x xs IH]; simpl; intros Hok w.
  - rewrite print_nil. reflexivity.
  - apply andb_prop in Hok. destruct Hok as [Hx Hxs].
    rewrite run_bind, (Hbody x w Hx), (IH Hxs), print_print. reflexivity.
Qed.


Lemma await_prisma_fulfilled m op args w v db' :
  orm_exec (Query m op args) (database w) = (Fulfilled v, db') ->
  await (prisma m op args) w =
  (Normal v,
   World db' (clock w) (stdout w) (stderr w)
     (events w ++ [Issued (Query m op args); Settled (Query m op args) (Fulfilled v)])).
Proof.
  intros E. unfold await, prisma, issue, settle. rewrite run_bind. simpl. rewrite E.
  unfold record_event. simpl. rewrite <- ?app_assoc. reflexivity.
Qed.

(** One post of the listing. *)
Lemma post_listed post w :
  negb (nullish post) = true ->
  (title ← get post "title";
   published ← get post "published";
   console_log [Tpl [Lit "     - Post: "; Lit dquote; Sub title; Lit dquote; Lit " (";
                     Lit (if truthy published then "published" else "draft"); Lit ")"]]) w
  = (Normal (), print [post_line post] w).
Proof.
  intros Hp. apply negb_true_iff in Hp.
  rewrite run_bind, (get_read _ _ _ Hp). cbv beta iota.
  rewrite run_bind, (get_read _ _ _ Hp). reflexivity.
Qed.

(** One user of the listing, with its posts. *)
Lemma user_listed user w :
  listable user = true ->
  (name ← get user "name";
   email ← get user "email";
   console_log [Tpl [Lit "   User: "; Sub name; Lit " ("; Sub email; Lit ")"]];;
   posts ← get user "posts";
   for_of posts (fun post =>
     title ← get post "title";
     published ← get post "published";
     console_log [Tpl [Lit "     - Post: "; Lit dquote; Sub title; Lit dquote; Lit " (";
                       Lit (if truthy published then "published" else "draft"); Lit ")"]])) w
  = (Normal (), print (row_lines user) w).
Proof.
  unfold listable, row_lines. intros Hok. apply andb_prop in Hok. destruct Hok as [Hu Hps].
  apply negb_true_iff in Hu.
  destruct (items (read user "posts")) as [ps|] eqn:Hitems; [| discriminate].
  rewrite run_bind, (get_read _ _ _ Hu). cbv beta iota.
  rewrite run_bind, (get_read _ _ _ Hu). cbv beta iota.
  rewrite run_bind, console_log_print. cbv beta iota.
  rewrite run_bind, (get_read _ _ _ Hu). cbv beta iota.
  rewrite (for_of_items _ _ _ Hitems).
  rewrite (each_prints _ (fun p => [post_line p]) (fun p => negb (nullish p)) ps
             (fun x w0 Hx => post_listed x w0 Hx) Hps).
  rewrite print_print, flat_map_singleton. reflexivity.
Qed.


(** X7.  When [findMany] answers with rows the listing can go through,
    step 3 of the verification script completes and prints, after its
    heading, one line for each user followed by one line for each of that
    user's posts, in the order of the answer. *)
Theorem verify_lists_every_row w users db' rows :
  orm_exec show_all_request (database w) = (Fulfilled users, db') ->
  items users = Some rows ->
  forallb listable rows = true ->
  fst (verify_show w) = Normal () /\
  stdout (snd (verify_show w))
    = stdout w ++ [Val (VStr "3. Showing all data...")] :: listing rows.
Proof.
  intros E Hitems Hrows. unfold verify_show.
  rewrite run_bind, console_log_print. cbv beta iota.
  rewrite run_bind. erewrite await_prisma_fulfilled by exact E. cbv beta iota.
  rewrite (for_of_items _ _ _ Hitems).
  rewrite (each_prints _ row_lines listable rows (fun x w0 Hx => user_listed x w0 Hx) Hrows).
  split; [reflexivity |]. simpl. rewrite <- app_assoc. reflexivity.
Qed.

End Listing.

(** ** Pagination in the advanced examples *)

Ltac step_log := rewrite run_bind, console_log_print; cbv beta iota.
Ltac step_await E := rewrite run_bind; erewrite await_prisma_fulfilled by exact E; cbv beta iota.
Ltac step_get H := rewrite run_bind, (get_read _ _ _ H); cbv beta iota.

Section Pagination.
Context {DB : Type} `{!Orm DB} {engine : Engine}.
Implicit Types w : world DB.

Lemma await_issued_then {A} m op args (k : value -> M DB A) w :
  (forall v, grows (k v)) ->
  exists more,
    events (snd ((await (prisma m op args) ≫= k) w))
      = events w ++ Issued (Query m op args) :: more.
Proof.
  intros Hk. rewrite run_bind. unfold await, prisma, issue, settle. rewrite run_bind. simpl.
  destruct (orm_exec (Query m op args) (database w)) as [[v|e] db']; simpl.
  - match goal with |- context [k v ?w1] =>
      destruct (Hk v w1) as (evs & out & err & He & _ & _) end.
    rewrite He. simpl. rewrite <- !app_assoc. simpl. eauto.
  - rewrite <- !app_assoc. simpl. eauto.
Qed.

(** X9.  The cursor of the second page is taken from the first page: when
    the first page has a first item, the advanced examples ask for the
    page at the cursor [{ id: firstPage[0].id }]; when the first page is
    empty they ask without a cursor and read no item. *)
Theorem cursor_from_first_page w v1 db1 v2 db2 v3 db3 firstPage db4 :
  orm_exec users_starting_with_A_request (database w) = (Fulfilled v1, db1) ->
  orm_exec posts_mentioning_request db1 = (Fulfilled v2, db2) ->
  nullish v2 = false ->
  orm_exec published_by_alice_request db2 = (Fulfilled v3, db3) ->
  nullish v3 = false ->
  orm_exec first_page_request db3 = (Fulfilled firstPage, db4) ->
  nullish firstPage = false ->
  (js_gt (read firstPage "length") 0 = true -> nullish (element firstPage 0) = false) ->
  exists more,
    issued (events (snd (runAllExamples w))) =
    issued (events w) ++
    [users_starting_with_A_request; posts_mentioning_request; published_by_alice_request;
     first_page_request; cursor_page_request firstPage] ++ more.
Proof.
  intros E1 E2 H2 E3 H3 E4 H4 H5. unfold runAllExamples.
  step_log. step_log. step_log. step_await E1. step_log.
  step_await E2. step_get H2. step_log.
  step_await E3. step_get H3. step_log.
  step_log. step_log. step_await E4. step_get H4. step_log. step_get H4.
  unfold cursor_page_request, cursor_for.
  destruct (js_gt (read firstPage "length") 0) eqn:G.
  - rewrite run_bind. rewrite run_bind, (index_element _ _ _ H4). cbv beta iota.
    rewrite run_bind, (get_read _ _ _ (H5 eq_refl)). cbv beta iota.
    unfold mret at 1, M_ret at 1. cbv beta iota.
    match goal with |- context [mbind ?k (await (prisma ?m ?op ?args)) ?w1] =>
      destruct (await_issued_then m op args k w1) as [more Hmore]; [intros; grows_tac |];
      rewrite Hmore end.
    simpl. rewrite !issued_app. simpl. rewrite <- !app_assoc. simpl. eauto.
  - rewrite run_bind. unfold mret at 1, M_ret at 1. cbv beta iota.
    match goal with |- context [mbind ?k (await (prisma ?m ?op ?args)) ?w1] =>
      destruct (await_issued_then m op args k w1) as [more Hmore]; [intros; grows_tac |];
      rewrite Hmore end.
    simpl. rewrite !issued_app. simpl. rewrite <- !app_assoc. simpl. eauto.
Qed.

(** X10.  An answer that is [null] or [undefined] where a list is expected
    ends the advanced examples at the first [.length]: the second
    [findMany] is the last call of the main function, which throws the
    TypeError of the engine for reading [length] on that answer. *)
Theorem advanced_examples_null_answer w v1 db1 v2 db2 :
  orm_exec users_starting_with_A_request (database w) = (Fulfilled v1, db1) ->
  orm_exec posts_mentioning_request db1 = (Fulfilled v2, db2) ->
  nullish v2 = true ->
  fst (runAllExamples w) = Throw (cannot_read v2 "length") /\
  issued (events (snd (runAllExamples w))) =
    issued (events w) ++ [users_starting_with_A_request; posts_mentioning_request].
Proof.
  intros E1 E2 H2. unfold runAllExamples.
  step_log. step_log. step_log. step_await E1. step_log.
  step_await E2. rewrite run_bind, (get_nullish _ _ _ H2). cbv beta iota.
  split; [reflexivity |].
  simpl. rewrite !issued_app. simpl. rewrite <- !app_assoc. reflexivity.
Qed.
End Pagination.

(** ** The reports of the verification script *)

Section Reports.
Context {DB : Type} `{!Orm DB} {engine : Engine}.
Implicit Types w : world DB.

(** X11.  A failed check is reported on stdout, not on stderr, under the
    name of its step: when [$connect] is rejected the last line [verify]
    prints is [✗ Connection failed:] with the error, and when one of the two
    counts is rejected it is [✗ Failed to query:] with the error; in each
    case the rejected call is the last thing done with the client. *)
Theorem verify_reports_failed_check w :
  let report (label : string) (r : request) (e : value) :=
    last (stdout (snd (verify w))) = Some [Val (VStr label); Val e] /\
    last (events (snd (verify w))) = Some (Settled r (Rejected e)) /\
    stderr (snd (verify w)) = stderr w in
  match orm_exec Connect (database w) with
  | (Rejected e, _) => report "   ✗ Connection failed:"%string Connect e
  | (Fulfilled _, db1) =>
      match orm_exec (Query User Count VUndefined) db1 with
      | (Rejected e, _) =>
          report "   ✗ Failed to query:"%string (Query User Count VUndefined) e
      | (Fulfilled _, db2) =>
          match orm_exec (Query Post Count VUndefined) db2 with
          | (Rejected e, _) =>
              report "   ✗ Failed to query:"%string (Query Post Count VUndefined) e
          | (Fulfilled _, _) => True
          end
      end
  end.
Proof.
  intros report. subst report.
  unfold verify. remember verify_show as show.
  unfold verify_connection, verify_tables, try_catch, await, prisma_connect,
    prisma, settle, issue, console_log, return_, mbind, M_bind.
  simpl.
  destruct (orm_exec Connect (database w)) as [[v1|e1] db1] eqn:E1; simpl.
  - destruct (orm_exec (Query User Count VUndefined) db1) as [[v2|e2] db2] eqn:E2; simpl.
    + destruct (orm_exec (Query Post Count VUndefined) db2) as [[v3|e3] db3] eqn:E3;
        [exact I |]. simpl.
      rewrite !last_snoc. auto.
    + rewrite !last_snoc. auto.
  - rewrite !last_snoc. auto.
Qed.
End Reports.

Lemma verify_lists_every_row_witness :
  let row := VObj [("name"%string, VStr "Alice"); ("email"%string, VStr "alice@prisma.io");
                   ("posts"%string,
                    VArr [VObj [("title"%string, VStr "My first post");
                                ("published"%string, VBool true)]])] in
  let w := initial [Fulfilled (VArr [row])] 0 in
  forallb listable [row] = true /\
  fst (verify_show w) = Normal () /\
  stdout (snd (verify_show w))
    = stdout w ++ [Val (VStr "3. Showing all data...")] :: listing [row].
Proof.
  intros row w. split; [reflexivity |].
  apply (verify_lists_every_row w (VArr [row]) [] [row]); reflexivity.
Defined.


Lemma cursor_from_first_page_witness :
  let firstPage := VArr [VObj [("id"%string, VNum 7)]] in
  let w := initial [Fulfilled (VArr []); Fulfilled (VArr []); Fulfilled (VArr []);
                    Fulfilled firstPage] 0 in
  cursor_for firstPage = VObj [("id"%string, VNum 7)] /\
  exists more,
    issued (events (snd (runAllExamples w))) =
    issued (events w) ++
    [users_starting_with_A_request; posts_mentioning_request; published_by_alice_request;
     first_page_request; cursor_page_request firstPage] ++ more.
Proof.
  intros firstPage w. split; [reflexivity |].
  apply (cursor_from_first_page w (VArr []) [Fulfilled (VArr []); Fulfilled (VArr []);
                                             Fulfilled firstPage]
           (VArr []) [Fulfilled (VArr []); Fulfilled firstPage]
           (VArr []) [Fulfilled firstPage] firstPage []); reflexivity.
Defined.

Lemma advanced_examples_null_answer_witness :
  let w := initial [Fulfilled (VArr []); Fulfilled VNull] 0 in
  fst (runAllExamples w) = Throw (cannot_read VNull "length") /\
  issued (events (snd (runAllExamples w))) =
    issued (events w) ++ [users_starting_with_A_request; posts_mentioning_request].
Proof.
  intros w.
  apply (advanced_examples_null_answer w (VArr []) [Fulfilled VNull] VNull []); reflexivity.
Defined.
